(** * Discipline monitor: confirmation filter, segment recorder, attribution

    A shallow embedding of [app.py] and [modules/video_processor.py].

    Conventions of the embedding.
    - [time.time()] readings are rationals ([Q]); the comparisons of the
      source are the comparisons of [Q].
    - A Python [set] of class names is a [gset string]; a detection [dict]
      is a [gmap string (list Box)], the boxes being opaque.
    - Every reading of [datetime.now()] is an input of its own of the
      frame in which it is made.
    - The collaborators (detector, face matcher, percent formatting, the
      frame count a capture reports) are inputs: the detector's answer
      travels with each frame, the matcher is an oracle of the
      attribution pass.
    - The order in which a Python [set] iterates is an input of every
      place that iterates one. *)

From Stdlib Require Import QArith Lqa Ascii.
From stdpp Require Import gmap strings list sorting pretty.

Set Warnings "-clear-no-such-hyp".

Local Open Scope string_scope.
Local Open Scope list_scope.
Local Open Scope Z_scope.
Local Open Scope stdpp_scope.

(** ** Python truthiness *)

(** [bool(x)] for a float: everything but zero is true. *)
Definition float_truthy (x : Q) : bool := negb (Qeq_bool x 0).

(** [bool(x)] for [None] or a float. *)
Definition opt_truthy (x : option Q) : bool :=
  match x with
  | None => false
  | Some t => float_truthy t
  end.

(** [bool(s)] for a set: true when it has an element. *)
Definition set_truthy (s : gset string) : bool := bool_decide (s ≠ ∅).

(** ** The confirmation filter (app.py, process_frame_for_detection) *)

Section Filter.
Context {Box : Type}.

(** One turn of [for class_name in detections]: every class except
    sleeping is confirmed at once and stamps the detection time. *)
Definition add_other_class (current_time : Q)
    (acc : gset string * option Q) (class_name : string)
    : gset string * option Q :=
  if bool_decide (class_name ≠ "sleeping")
  then ({[class_name]} ∪ acc.1, Some current_time)
  else acc.

Definition process_frame_for_detection (current_time : Q)
    (detections : gmap string (list Box)) (sleep_start_time : option Q)
    (sleep_buffer : Q) : gset string * option Q * option Q :=
  let confirmed_violations : gset string := ∅ in
  let new_sleep_start_time := sleep_start_time in
  let new_last_detection_time : option Q := None in
  let sleep_detected_in_frame :=
    bool_decide (is_Some (detections !! "sleeping")) in
  let '(confirmed_violations, new_sleep_start_time, new_last_detection_time) :=
    if sleep_detected_in_frame then
      let started :=
        match new_sleep_start_time with
        | None => current_time
        | Some t => t
        end in
      if Qle_bool sleep_buffer (current_time - started)
      then ({["sleeping"]} ∪ confirmed_violations, Some started,
            Some current_time)
      else (confirmed_violations, Some started, new_last_detection_time)
    else (confirmed_violations, None, new_last_detection_time) in
  let '(confirmed_violations, new_last_detection_time) :=
    foldl (add_other_class current_time)
          (confirmed_violations, new_last_detection_time)
          (elements (dom detections)) in
  (confirmed_violations, new_sleep_start_time, new_last_detection_time).

(** The three components of the filter's answer. *)
Definition confirmed_of (current_time : Q) (detections : gmap string (list Box))
    (sleep_start_time : option Q) (sleep_buffer : Q) : gset string :=
  (process_frame_for_detection current_time detections sleep_start_time
     sleep_buffer).1.1.

Definition sleep_start_of (current_time : Q) (detections : gmap string (list Box))
    (sleep_start_time : option Q) (sleep_buffer : Q) : option Q :=
  (process_frame_for_detection current_time detections sleep_start_time
     sleep_buffer).1.2.

Definition detection_time_of (current_time : Q)
    (detections : gmap string (list Box))
    (sleep_start_time : option Q) (sleep_buffer : Q) : option Q :=
  (process_frame_for_detection current_time detections sleep_start_time
     sleep_buffer).2.

(** The filter over successive sampled frames, as the stream loops call
    it: the sleep timer returned by one call is the argument of the
    next.  The result lists the confirmed set of every frame. *)
Fixpoint confirm_run (sleep_buffer : Q) (sleep_start_time : option Q)
    (frames : list (Q * gmap string (list Box))) : list (gset string) :=
  match frames with
  | [] => []
  | (current_time, detections) :: rest =>
      confirmed_of current_time detections sleep_start_time sleep_buffer
      :: confirm_run sleep_buffer
           (sleep_start_of current_time detections sleep_start_time
              sleep_buffer)
           rest
  end.

(** The sleep timer after a run of sampled frames. *)
Definition timer_after (sleep_buffer : Q) (sleep_start_time : option Q)
    (frames : list (Q * gmap string (list Box))) : option Q :=
  foldl (λ s f, sleep_start_of f.1 f.2 s sleep_buffer) sleep_start_time frames.

(** Whether a call confirms sleeping: it is detected and the timer,
    started now if it was not running, has run for [sleep_buffer]. *)
Definition sleep_elapsed (current_time : Q)
    (detections : gmap string (list Box)) (sleep_start_time : option Q)
    (sleep_buffer : Q) : bool :=
  bool_decide (is_Some (detections !! "sleeping")) &&
  Qle_bool sleep_buffer (current_time - default current_time sleep_start_time).

(** The frames [k..j] of [frames] all show sleeping. *)
Definition sleeping_throughout (frames : list (Q * gmap string (list Box)))
    (k j : nat) : Prop :=
  ∀ m, (k ≤ m ≤ j)%nat →
    ∃ tm dm, frames !! m = Some (tm, dm) ∧ is_Some (dm !! "sleeping").

End Filter.

(** ** Clock readings and the names derived from them *)

(** What [datetime.now()] returns, down to the second. *)
Record datetime := {
  year : Z; month : Z; day : Z;
  hour : Z; minute : Z; second : Z
}.

(** A calendar reading of the proleptic Gregorian clock of [datetime]:
    the ranges [strftime] prints with a fixed number of digits. *)
Definition valid_datetime (d : datetime) : Prop :=
  (1 ≤ year d < 10000)%Z ∧ (1 ≤ month d ≤ 12)%Z ∧ (1 ≤ day d ≤ 31)%Z ∧
  (0 ≤ hour d < 24)%Z ∧ (0 ≤ minute d < 60)%Z ∧ (0 ≤ second d < 60)%Z.

Definition digit (n : Z) : ascii := ascii_of_nat (48 + Z.to_nat (n `mod` 10)).

(** Zero-padded decimal fields of [strftime]: [%m %d %H %M %S] and [%Y]. *)
Definition pad2 (n : Z) : string :=
  String (digit (n / 10)) (String (digit n) "").

Definition pad4 (n : Z) : string :=
  String (digit (n / 1000)) (String (digit (n / 100))
    (String (digit (n / 10)) (String (digit n) ""))).

(** [strftime("%Y-%m-%d")] *)
Definition strftime_date (d : datetime) : string :=
  pad4 (year d) +:+ "-" +:+ pad2 (month d) +:+ "-" +:+ pad2 (day d).

(** [strftime("%H-%M-%S")] *)
Definition strftime_dashed (d : datetime) : string :=
  pad2 (hour d) +:+ "-" +:+ pad2 (minute d) +:+ "-" +:+ pad2 (second d).

(** [strftime("%H:%M:%S")] *)
Definition strftime_clock (d : datetime) : string :=
  pad2 (hour d) +:+ ":" +:+ pad2 (minute d) +:+ ":" +:+ pad2 (second d).

(** [os.path.join] of relative POSIX components. *)
Definition path_join (a b : string) : string := a +:+ "/" +:+ b.

(** ** The video processor (modules/video_processor.py) *)

Module VideoProcessor.

(** [writer] holds the path of the open [cv2.VideoWriter]; [released]
    lists, oldest first, the paths whose writer has been released.
    The frames a writer receives are outside the model. *)
Record t := {
  writer : option string;
  recording : bool;
  released : list string
}.

(** [VideoProcessor()] *)
Definition init : t :=
  {| writer := None; recording := false; released := [] |}.

(** [setup_output_dirs], first component: the segments directory of the
    day ([makedirs] with [exist_ok] changes nothing the model tracks). *)
Definition setup_output_dirs (now : datetime) : string :=
  path_join (path_join "monitor_output" "segments") (strftime_date now).

Definition start_recording (output_path : string) (vp : t) : t :=
  {| writer := Some output_path; recording := true;
     released := released vp |}.

Definition stop_recording (vp : t) : t :=
  match writer vp with
  | Some p =>
      {| writer := None; recording := false;
         released := released vp ++ [p] |}
  | None => vp
  end.

Definition generate_segment_filename (now : datetime) : string :=
  "seg_" +:+ strftime_dashed now +:+ ".mp4".

End VideoProcessor.

(** The path a segment is written to (app.py, the three lines before
    [start_recording]): the directory comes from the clock as
    [setup_output_dirs] reads it, the file name from the clock as
    [generate_segment_filename] reads it afterwards. *)
Definition segment_path (dir_now file_now : datetime) : string :=
  path_join (VideoProcessor.setup_output_dirs dir_now)
            (VideoProcessor.generate_segment_filename file_now).

(** Two readings of the same day. *)
Definition same_date (d1 d2 : datetime) : Prop :=
  year d1 = year d2 ∧ month d1 = month d2 ∧ day d1 = day d2.

(** Two readings of the same second of the day. *)
Definition same_time_of_day (d1 d2 : datetime) : Prop :=
  hour d1 = hour d2 ∧ minute d1 = minute d2 ∧ second d1 = second d2.

(** ** The ledger *)

(** One dictionary of [st.session_state.violations_log]. *)
Record LedgerEntry := {
  path : option string;
  time : string;
  violation : string;
  student : string;
  confidence : string
}.

(** The value of [student] that marks an entry as awaiting attribution. *)
Definition PENDING : string := "Обработка...".
Definition NOT_RECOGNISED : string := "Не опознан".
Definition ANALYSIS_ERROR : string := "Ошибка анализа".
Definition NO_DATABASE : string := "Нет БД".

Definition is_pending (e : LedgerEntry) : bool :=
  bool_decide (student e = PENDING).

(** ** Rendering a set of classes *)

(** [sorted(xs)] on strings: ascending in the lexicographic order of the
    character codes. *)
Definition sorted (xs : list string) : list string := merge_sort String.le xs.

(** [", ".join(xs)] *)
Definition join (xs : list string) : string := String.concat ", " xs.

(** Which of the three stream routines is running. *)
Inductive Handler := Webcam | File | Url.

(** The [violation] field written at segment close.  [iter] is the order
    in which Python iterates over the set: the camera and file routines
    sort what they iterate, the network routine joins it as it comes. *)
Definition render_violation (h : Handler) (iter : gset string → list string)
    (rec_violations : gset string) : string :=
  match h with
  | Webcam | File => join (sorted (iter rec_violations))
  | Url => join (iter rec_violations)
  end.

(** An iteration order lists the elements of the set, each once. *)
Definition iteration_order (iter : gset string → list string) : Prop :=
  ∀ s, iter s ≡ₚ elements s.

(** ** Run configuration and collaborators *)

(** The arguments of the stream routines that the loops read. *)
Record Config := {
  frame_skip : Z;
  buffer_seconds : Q;
  sleep_buffer : Q;
  face_similarity : Q
}.

(** What [analyze_video_segment] does on one call: it returns
    [(name, score, face_path)] or raises. *)
Inductive MatchResult :=
  | Matched (name : string) (score : Q) (face_path : string)
  | MatchRaised.

(** The world around a run.  [entry_iter k s] is the order in which the
    accumulated set, holding the classes [s], iterates when the entry of
    index [k] of the log is written: the order of a Python set depends
    on how the set was built, not on its elements alone, so every entry
    has an order of its own.  [capture_frame_count] is what
    [cap.get(cv2.CAP_PROP_FRAME_COUNT)] returns.
    [analyze_video_segment idx p sim] is the answer of the matcher to
    the call number [idx] of the pass, on segment [p]; [format_percent]
    is the format [.0%] of a score; [database_available] is the truth
    value of [face_recognizer and face_recognizer.is_database_available()]. *)
Record Env := {
  entry_iter : nat → gset string → list string;
  capture_frame_count : Q;
  database_available : bool;
  analyze_video_segment : nat → option string → Q → MatchResult;
  format_percent : Q → string
}.

(** The iteration order at the first entry of a log. *)
Definition set_iter (env : Env) : gset string → list string :=
  entry_iter env 0.

(** Whatever the entry, the set iterates over its elements, each once. *)
Definition iteration_orders (env : Env) : Prop :=
  ∀ k, iteration_order (entry_iter env k).

Definition Qlt_bool (x y : Q) : bool := negb (Qle_bool y x).

(** ** The frame loop (app.py, the three stream routines) *)

Section Recorder.
Context {Box : Type}.

(** One iteration's inputs: the [time.time()] reading; the three
    readings of [datetime.now()] an iteration can make, by
    [setup_output_dirs] ([f_now]) and then by
    [generate_segment_filename] ([f_now_file]) when a segment opens, and
    for the [time] of the entry ([f_now_close]) when one closes; and
    what the detector answers on this frame if it is asked. *)
Record Frame := {
  f_time : Q;
  f_now : datetime;
  f_now_file : datetime;
  f_now_close : datetime;
  f_detections : gmap string (list Box)
}.

(** The locals of a stream routine together with the two session
    objects it mutates. *)
Record LoopState := {
  frame_count : Z;
  sleep_start_time : option Q;
  last_detection_time : option Q;
  last_recording_end_time : option Q;
  recording : bool;
  rec_violations : gset string;
  current_segment_path : option string;
  last_detections : gmap string (list Box);
  last_confirmed_violations : gset string;
  violations_log : list LedgerEntry;
  video_processor : VideoProcessor.t
}.

(** The locals as initialised before the loop. *)
Definition init_state (log : list LedgerEntry) (vp : VideoProcessor.t)
    : LoopState :=
  {| frame_count := 0;
     sleep_start_time := None;
     last_detection_time := None;
     last_recording_end_time := None;
     recording := false;
     rec_violations := ∅;
     current_segment_path := None;
     last_detections := ∅;
     last_confirmed_violations := ∅;
     violations_log := log;
     video_processor := vp |}.

(** [frame_count % frame_skip == 0], for a non-zero [frame_skip]. *)
Definition sampled (cfg : Config) (count : Z) : bool :=
  count `mod` frame_skip cfg =? 0.

(** The value of the local [confirmed_violations] in the iteration that
    reads frame [f] from state [st]: the filter's answer on a sampled
    frame, the empty set otherwise. *)
Definition frame_confirmed (cfg : Config) (st : LoopState) (f : Frame)
    : gset string :=
  if sampled cfg (frame_count st + 1)
  then confirmed_of (f_time f) (f_detections f) (sleep_start_time st)
         (sleep_buffer cfg)
  else ∅.

(** Counting the frame and, on a sampled frame, the detection block. *)
Definition detect_stage (cfg : Config) (st : LoopState) (f : Frame)
    : LoopState :=
  let count := frame_count st + 1 in
  if sampled cfg count then
    let '(confirmed_violations, new_sleep_start, detection_time) :=
      process_frame_for_detection (f_time f) (f_detections f)
        (sleep_start_time st) (sleep_buffer cfg) in
    {| frame_count := count;
       sleep_start_time := new_sleep_start;
       last_detection_time :=
         if set_truthy confirmed_violations && opt_truthy detection_time
         then detection_time else last_detection_time st;
       last_recording_end_time := last_recording_end_time st;
       recording := recording st;
       rec_violations := rec_violations st;
       current_segment_path := current_segment_path st;
       last_detections := f_detections f;
       last_confirmed_violations := confirmed_violations;
       violations_log := violations_log st;
       video_processor := video_processor st |}
  else
    {| frame_count := count;
       sleep_start_time := sleep_start_time st;
       last_detection_time := last_detection_time st;
       last_recording_end_time := last_recording_end_time st;
       recording := recording st;
       rec_violations := rec_violations st;
       current_segment_path := current_segment_path st;
       last_detections := last_detections st;
       last_confirmed_violations := last_confirmed_violations st;
       violations_log := violations_log st;
       video_processor := video_processor st |}.

(** Start of a segment: a path from the clock, a fresh writer, and the
    accumulated set becomes a copy of the confirmed set. *)
Definition open_segment (confirmed_violations : gset string)
    (st : LoopState) (f : Frame) : LoopState :=
  let segments_dir := VideoProcessor.setup_output_dirs (f_now f) in
  let filename := VideoProcessor.generate_segment_filename (f_now_file f) in
  let new_path := path_join segments_dir filename in
  {| frame_count := frame_count st;
     sleep_start_time := sleep_start_time st;
     last_detection_time := last_detection_time st;
     last_recording_end_time := last_recording_end_time st;
     recording := true;
     rec_violations := confirmed_violations;
     current_segment_path := Some new_path;
     last_detections := last_detections st;
     last_confirmed_violations := last_confirmed_violations st;
     violations_log := violations_log st;
     video_processor :=
       VideoProcessor.start_recording new_path (video_processor st) |}.

(** [rec_violations.update(confirmed_violations)] *)
Definition extend_segment (confirmed_violations : gset string)
    (st : LoopState) : LoopState :=
  {| frame_count := frame_count st;
     sleep_start_time := sleep_start_time st;
     last_detection_time := last_detection_time st;
     last_recording_end_time := last_recording_end_time st;
     recording := recording st;
     rec_violations := rec_violations st ∪ confirmed_violations;
     current_segment_path := current_segment_path st;
     last_detections := last_detections st;
     last_confirmed_violations := last_confirmed_violations st;
     violations_log := violations_log st;
     video_processor := video_processor st |}.

(** The recording logic.  The camera and file routines run it on every
    frame, with one nested test; the network routine runs it inside the
    detection block, as two tests in sequence. *)
Definition record_stage (h : Handler) (cfg : Config)
    (confirmed_violations : gset string) (st : LoopState) (f : Frame)
    : LoopState :=
  match h with
  | Webcam | File =>
      if set_truthy confirmed_violations then
        if negb (recording st)
        then open_segment confirmed_violations st f
        else extend_segment confirmed_violations st
      else st
  | Url =>
      if sampled cfg (frame_count st) then
        let st1 :=
          if set_truthy confirmed_violations && negb (recording st)
          then open_segment confirmed_violations st f else st in
        if set_truthy confirmed_violations && recording st1
        then extend_segment confirmed_violations st1 else st1
      else st
  end.

(** The dictionary appended to the log when a segment closes. *)
Definition closing_entry (h : Handler) (env : Env) (st : LoopState)
    (f : Frame) : LedgerEntry :=
  {| path := current_segment_path st;
     time := strftime_clock (f_now_close f);
     violation :=
       render_violation h (entry_iter env (length (violations_log st)))
         (rec_violations st);
     student := PENDING;
     confidence := "N/A" |}.

(** End of a segment: release the writer, log the segment; the camera
    and file routines also clear the set kept for drawing, the network
    routine notes the time. *)
Definition close_segment (h : Handler) (env : Env) (st : LoopState)
    (f : Frame) : LoopState :=
  {| frame_count := frame_count st;
     sleep_start_time := sleep_start_time st;
     last_detection_time := last_detection_time st;
     last_recording_end_time :=
       match h with
       | Url => Some (f_time f)
       | _ => last_recording_end_time st
       end;
     recording := false;
     rec_violations := rec_violations st;
     current_segment_path := current_segment_path st;
     last_detections := last_detections st;
     last_confirmed_violations :=
       match h with
       | Url => last_confirmed_violations st
       | _ => ∅
       end;
     violations_log := violations_log st ++ [closing_entry h env st f];
     video_processor := VideoProcessor.stop_recording (video_processor st) |}.

(** The test that ends a segment:
    [recording and last_detection_time] and then
    [(current_time - last_detection_time) > buffer_seconds]. *)
Definition close_due (cfg : Config) (st : LoopState) (f : Frame) : bool :=
  recording st && opt_truthy (last_detection_time st) &&
  match last_detection_time st with
  | Some t => Qlt_bool (buffer_seconds cfg) (f_time f - t)
  | None => false
  end.

Definition close_stage (h : Handler) (cfg : Config) (env : Env)
    (st : LoopState) (f : Frame) : LoopState :=
  if close_due cfg st f then close_segment h env st f else st.

(** One iteration of the loop body, for a non-zero [frame_skip].
    Drawing, the recording indicator and [write_frame] change nothing
    the model tracks. *)
Definition process_frame (h : Handler) (cfg : Config) (env : Env)
    (st : LoopState) (f : Frame) : LoopState :=
  let confirmed_violations := frame_confirmed cfg st f in
  let st1 := detect_stage cfg st f in
  let st2 := record_stage h cfg confirmed_violations st1 f in
  close_stage h cfg env st2 f.

(** The state in which the close test of an iteration is made. *)
Definition before_close (h : Handler) (cfg : Config) (st : LoopState)
    (f : Frame) : LoopState :=
  record_stage h cfg (frame_confirmed cfg st f) (detect_stage cfg st f) f.

(** Iterations in sequence. *)
Definition run_frames (h : Handler) (cfg : Config) (env : Env)
    (st : LoopState) (frames : list Frame) : LoopState :=
  foldl (process_frame h cfg env) st frames.

(** The confirmed set of every iteration of a run. *)
Fixpoint confirmed_trace (h : Handler) (cfg : Config) (env : Env)
    (st : LoopState) (frames : list Frame) : list (gset string) :=
  match frames with
  | [] => []
  | f :: rest =>
      frame_confirmed cfg st f
      :: confirmed_trace h cfg env (process_frame h cfg env st f) rest
  end.

(** No iteration of the run confirms anything. *)
Fixpoint quiet_frames (h : Handler) (cfg : Config) (env : Env)
    (st : LoopState) (frames : list Frame) : Prop :=
  match frames with
  | [] => True
  | f :: rest =>
      frame_confirmed cfg st f = ∅ ∧
      quiet_frames h cfg env (process_frame h cfg env st f) rest
  end.

(** Every iteration of the run ends with a segment open. *)
Fixpoint stays_recording (h : Handler) (cfg : Config) (env : Env)
    (st : LoopState) (frames : list Frame) : Prop :=
  match frames with
  | [] => True
  | f :: rest =>
      recording (process_frame h cfg env st f) = true ∧
      stays_recording h cfg env (process_frame h cfg env st f) rest
  end.

End Recorder.

(** ** Face analysis after the loop *)

(** [[i for i, v in enumerate(log) if v['student'] == 'Обработка...']],
    counting from [i]. *)
Fixpoint pending_from (i : nat) (log : list LedgerEntry) : list nat :=
  match log with
  | [] => []
  | e :: rest =>
      if is_pending e then i :: pending_from (S i) rest
      else pending_from (S i) rest
  end.

Definition violations_to_process (log : list LedgerEntry) : list nat :=
  pending_from 0 log.

(** The body of the [try] and its [except] on one entry. *)
Definition resolve_entry (env : Env) (cfg : Config) (idx : nat)
    (e : LedgerEntry) : LedgerEntry :=
  match analyze_video_segment env idx (path e) (face_similarity cfg) with
  | Matched name score _ =>
      {| path := path e; time := time e; violation := violation e;
         student := name; confidence := format_percent env score |}
  | MatchRaised =>
      {| path := path e; time := time e; violation := violation e;
         student := NOT_RECOGNISED; confidence := ANALYSIS_ERROR |}
  end.

(** One turn of [for idx, i in enumerate(violations_to_process)].  The
    second component collects the segments handed to the matcher.  The
    index always lies inside the log; outside it nothing is done. *)
Definition attribute_step (env : Env) (cfg : Config)
    (acc : list LedgerEntry * list (option string)) (turn : nat * nat)
    : list LedgerEntry * list (option string) :=
  match acc.1 !! turn.2 with
  | Some e =>
      (<[turn.2 := resolve_entry env cfg turn.1 e]> acc.1, acc.2 ++ [path e])
  | None => acc
  end.

Definition attribute_with_database (env : Env) (cfg : Config)
    (log : list LedgerEntry) : list LedgerEntry * list (option string) :=
  foldl (attribute_step env cfg) (log, [])
        (imap pair (violations_to_process log)).

(** The [else] branch: every entry still pending is closed without a
    call to the matcher. *)
Definition mark_no_database (e : LedgerEntry) : LedgerEntry :=
  if is_pending e then
    {| path := path e; time := time e; violation := violation e;
       student := NOT_RECOGNISED; confidence := NO_DATABASE |}
  else e.

Definition attribute_without_database (log : list LedgerEntry)
    : list LedgerEntry * list (option string) :=
  (mark_no_database <$> log, []).

(** The whole block under [if st.session_state.violations_log]: the log
    after it and the matcher calls it made. *)
Definition face_analysis (env : Env) (cfg : Config) (log : list LedgerEntry)
    : list LedgerEntry * list (option string) :=
  match log with
  | [] => (log, [])
  | _ :: _ =>
      if database_available env then attribute_with_database env cfg log
      else attribute_without_database log
  end.

(** The pass with a database, entry by entry: a pending entry meets the
    matcher's call number [n], the others are passed over. *)
Fixpoint resolve_from (env : Env) (cfg : Config) (n : nat)
    (log : list LedgerEntry) : list LedgerEntry :=
  match log with
  | [] => []
  | e :: rest =>
      if is_pending e
      then resolve_entry env cfg n e :: resolve_from env cfg (S n) rest
      else e :: resolve_from env cfg n rest
  end.

(** The segments of the pending entries, in ledger order. *)
Definition pending_paths (log : list LedgerEntry) : list (option string) :=
  path <$> filter (λ e, is_pending e = true) log.

(** The number of the matcher call that serves entry [k]: the count of
    pending entries before it. *)
Definition call_number (log : list LedgerEntry) (k : nat) : nat :=
  length (filter (λ e, is_pending e = true) (take k log)).

(** An entry closed by the [except] branch. *)
Definition analysis_error_entry (e : LedgerEntry) : LedgerEntry :=
  {| path := path e; time := time e; violation := violation e;
     student := NOT_RECOGNISED; confidence := ANALYSIS_ERROR |}.

(** ** The stream routines *)

(** What a routine leaves in [st.session_state]. *)
Record Session := {
  s_violations_log : list LedgerEntry;
  s_video_processor : VideoProcessor.t;
  s_processing : bool
}.

Section Routines.
Context {Box : Type}.

(** How the loop ended: its condition or [cap.read()] failed, or a
    statement raised: the modulo of the sampling test, or the progress
    of the file routine. *)
Inductive Outcome :=
  | Finished (st : @LoopState Box)
  | Raised (st : @LoopState Box).

(** The loop condition besides [cap.isOpened()]: the camera routine
    stops at 9000 frames or on the stop button, the network routine at
    3000 frames. *)
Definition loop_guard (h : Handler) (stop_button : bool)
    (st : @LoopState Box) : bool :=
  match h with
  | Webcam => (frame_count st <? 9000) && negb stop_button
  | File => true
  | Url => frame_count st <? 3000
  end.

(** The last statements of an iteration compute the progress and hand
    it to the progress bar.  The file routine divides the frame count,
    at least 1 there, by [cap.get(cv2.CAP_PROP_FRAME_COUNT)]: the
    division raises when the capture reports no frames, and when it
    reports a negative number the progress is negative, which the
    progress bar refuses by raising.  The other two routines divide by
    their frame cap and stay between 0 and 1. *)
Definition progress_raises (h : Handler) (env : Env) : bool :=
  match h with
  | File => Qle_bool (capture_frame_count env) 0
  | Webcam | Url => false
  end.

(** The [while] loop over the frames the source delivers; the source
    fails to deliver when the list is exhausted.  An iteration raises
    at its sampling test, before anything is done, or at its progress,
    when everything is done.  What the display does with the frame and
    with the progress is outside the model. *)
Fixpoint frame_loop (h : Handler) (cfg : Config) (env : Env)
    (stop_button : bool) (st : LoopState) (frames : list (@Frame Box))
    : Outcome :=
  match frames with
  | [] => Finished st
  | f :: rest =>
      if loop_guard h stop_button st then
        if frame_skip cfg =? 0 then Raised st
        else if progress_raises h env
        then Raised (process_frame h cfg env st f)
        else frame_loop h cfg env stop_button (process_frame h cfg env st f)
               rest
      else Finished st
  end.

(** After the loop: release the capture, release the writer of a
    segment still open, analyse faces, clear the processing flag.  When
    the loop raised, the outer handler only clears the flag. *)
Definition finish (env : Env) (cfg : Config) (o : Outcome) : Session :=
  match o with
  | Finished st =>
      {| s_violations_log := (face_analysis env cfg (violations_log st)).1;
         s_video_processor :=
           if recording st
           then VideoProcessor.stop_recording (video_processor st)
           else video_processor st;
         s_processing := false |}
  | Raised st =>
      {| s_violations_log := violations_log st;
         s_video_processor := video_processor st;
         s_processing := false |}
  end.

(** A stream routine.  [opened] is [cap.isOpened()] after the capture is
    created: the camera and network routines return at once when it is
    false, the file routine goes on to a loop that does not iterate. *)
Definition process_stream (h : Handler) (cfg : Config) (env : Env)
    (opened stop_button : bool) (frames : list (@Frame Box))
    (sess : Session) : Session :=
  let start :=
    init_state (s_violations_log sess) (s_video_processor sess) in
  match h, opened with
  | Webcam, false | Url, false =>
      {| s_violations_log := s_violations_log sess;
         s_video_processor := s_video_processor sess;
         s_processing := false |}
  | File, false => finish env cfg (Finished start)
  | _, true =>
      finish env cfg (frame_loop h cfg env stop_button start frames)
  end.

Definition process_webcam (cfg : Config) (env : Env)
    (opened stop_button : bool) (frames : list (@Frame Box))
    (sess : Session) : Session :=
  process_stream Webcam cfg env opened stop_button frames sess.

Definition process_video_file (cfg : Config) (env : Env) (opened : bool)
    (frames : list (@Frame Box)) (sess : Session) : Session :=
  process_stream File cfg env opened false frames sess.

Definition process_video_url (cfg : Config) (env : Env) (opened : bool)
    (frames : list (@Frame Box)) (sess : Session) : Session :=
  process_stream Url cfg env opened false frames sess.

End Routines.

(** ** Sample inputs

    Concrete clocks, frames and collaborators on which the statements
    below are evaluated. *)

Module Sample.

(** 9 March 2025, 14:01 and [s] seconds. *)
Definition at_second (s : Z) : datetime :=
  {| year := 2025; month := 3; day := 9;
     hour := 14; minute := 1; second := s |}.

(** A detector answer with one box for each class. *)
Definition shows (classes : list string) : gmap string (list unit) :=
  list_to_map ((λ c, (c, [()])) <$> classes).

(** A frame all of whose clock readings fall in the same second. *)
Definition frame (t : Q) (s : Z) (classes : list string) : @Frame unit :=
  {| f_time := t; f_now := at_second s; f_now_file := at_second s;
     f_now_close := at_second s; f_detections := shows classes |}.

(** Every frame sampled, ten seconds of sleep debounce. *)
Definition cfg (buffer : Q) : Config :=
  {| frame_skip := 1; buffer_seconds := buffer; sleep_buffer := 10;
     face_similarity := 0.5 |}.

(** No face database; sets iterate in the order of [elements]; the
    capture reports one frame. *)
Definition env : Env :=
  {| entry_iter := λ _, elements;
     capture_frame_count := 1;
     database_available := false;
     analyze_video_segment := λ _ _ _, MatchRaised;
     format_percent := λ _, "" |}.

(** The same, sets iterating in the opposite order. *)
Definition env_reversed : Env :=
  {| entry_iter := λ _ s, reverse (elements s);
     capture_frame_count := 1;
     database_available := false;
     analyze_video_segment := λ _ _ _, MatchRaised;
     format_percent := λ _, "" |}.

(** A database is present; the matcher fails on its second call. *)
Definition env_matching : Env :=
  {| entry_iter := λ _, elements;
     capture_frame_count := 1;
     database_available := true;
     analyze_video_segment := λ idx _ _,
       if (idx =? 1)%nat then MatchRaised
       else Matched "Ivanov" 0.9 "face.jpg";
     format_percent := λ _, "90%" |}.

Definition start : @LoopState unit := init_state [] VideoProcessor.init.

Definition session : Session :=
  {| s_violations_log := []; s_video_processor := VideoProcessor.init;
     s_processing := true |}.

Definition pending_entry (p : string) : LedgerEntry :=
  {| path := Some p; time := "14:01:40"; violation := "phone";
     student := PENDING; confidence := "N/A" |}.

Definition the_path : string :=
  "monitor_output/segments/2025-03-09/seg_14-01-40.mp4".

End Sample.

(** ** The recorder and its writer *)

Section WriterState.
Context {Box : Type}.

(** The local flag and path of a stream routine agree with the state of
    the video processor: its flag is the local one, and its writer is
    the current segment while recording and absent otherwise. *)
Definition writer_consistent (st : @LoopState Box) : Prop :=
  VideoProcessor.recording (video_processor st) = recording st ∧
  VideoProcessor.writer (video_processor st) =
    (if recording st then current_segment_path st else None) ∧
  (recording st = true → is_Some (current_segment_path st)).

End WriterState.

(** A video processor with no writer open, as [VideoProcessor()] and
    every finished routine leave it. *)
Definition writer_closed (vp : VideoProcessor.t) : Prop :=
  VideoProcessor.writer vp = None ∧ VideoProcessor.recording vp = false.

(** The frames a routine reads before its frame cap stops it: 9000 for
    the camera, 3000 for the network stream, all of them for a file. *)
Definition frames_processed {A : Type} (h : Handler) (frames : list A)
    : list A :=
  match h with
  | Webcam => take (Z.to_nat 9000) frames
  | File => frames
  | Url => take (Z.to_nat 3000) frames
  end.

(** The part of an entry that the recorder writes and nothing changes
    afterwards. *)
Definition segment_record (e : LedgerEntry)
    : option string * string * string :=
  (path e, time e, violation e).

(** ** The statistics tab (app.py, the chart of violation types) *)

(** [s.split(', ')]: the pieces of [s] between the leftmost
    non-overlapping occurrences of a comma followed by a space. *)
Fixpoint split_comma_space (s : string) : list string :=
  match s with
  | "" => [""]
  | String c rest =>
      match Ascii.eqb c ",", rest with
      | true, String c' rest' =>
          if Ascii.eqb c' " " then "" :: split_comma_space rest'
          else match split_comma_space rest with
               | piece :: more => String c piece :: more
               | [] => [String c ""]
               end
      | _, _ =>
          match split_comma_space rest with
          | piece :: more => String c piece :: more
          | [] => [String c ""]
          end
      end
  end.

(** The characters of a string. *)
Fixpoint chars (s : string) : list ascii :=
  match s with
  | "" => []
  | String c rest => c :: chars rest
  end.

(** A name without a comma, as the class names of a detector are. *)
Definition comma_free (s : string) : Prop := ","%char ∉ chars s.

(** [violation_types[vtype] = violation_types.get(vtype, 0) + 1] *)
Definition count_type (violation_types : gmap string nat) (vtype : string)
    : gmap string nat :=
  <[vtype := (default 0 (violation_types !! vtype) + 1)%nat]> violation_types.

(** The loops that fill [violation_types] from the log. *)
Definition violation_type_counts (log : list LedgerEntry) : gmap string nat :=
  foldl (λ counts v, foldl count_type counts (split_comma_space (violation v)))
        ∅ log.

(** An entry whose [violation] is what some routine writes for the
    non-empty set [s] of comma-free class names, under some iteration
    order of its own. *)
Definition entry_of_set (e : LedgerEntry) (s : gset string) : Prop :=
  s ≠ ∅ ∧ set_Forall comma_free s ∧
  ∃ h iter, iteration_order iter ∧ violation e = render_violation h iter s.

(** ** The report (video_processor.py, generate_report) *)

Definition newline : string := String (ascii_of_nat 10) "".

(** [c * n] for a one-character string. *)
Fixpoint repeat_char (c : ascii) (n : nat) : string :=
  match n with
  | O => ""
  | S n' => String c (repeat_char c n')
  end.

(** [str(x)] inside an f-string, for a path that may be [None]. *)
Definition show_path (p : option string) : string :=
  match p with
  | Some s => s
  | None => "None"
  end.

Definition NO_FACE : string := "Нет лица".

(** The two locals [student_info] and [face_path] after the analysis of
    one segment.  [idx] numbers the matcher calls of the report and
    [default_similarity] is the default of the matcher's second
    argument, which the report does not pass. *)
Definition report_labels (env : Env) (default_similarity : Q) (idx : nat)
    (item : LedgerEntry) : string * string :=
  if database_available env then
    match analyze_video_segment env idx (path item) default_similarity with
    | Matched name score face_path =>
        (if Qle_bool 0.5 score
         then name +:+ " (" +:+ format_percent env score +:+ ")"
         else NOT_RECOGNISED,
         face_path)
    | MatchRaised => (ANALYSIS_ERROR, NO_FACE)
    end
  else (NOT_RECOGNISED, NO_FACE).

(** What one turn of the loop appends to the report file; [i] counts
    from one. *)
Definition report_block (i : nat) (item : LedgerEntry)
    (labels : string * string) : string :=
  "№" +:+ pretty i +:+ newline +:+
  repeat_char "-" 30 +:+ newline +:+
  "Время:       " +:+ time item +:+ newline +:+
  "Нарушение:   " +:+ violation item +:+ newline +:+
  "Студент:     " +:+ labels.1 +:+ newline +:+
  "Видеофайл:   " +:+ show_path (path item) +:+ newline +:+
  "Фото лица:   " +:+ labels.2 +:+ newline +:+
  newline.

(** What the first [open] writes. *)
Definition report_header (today_date : string) : string :=
  repeat_char "=" 70 +:+ newline +:+
  "ОТЧЕТ О НАРУШЕНИЯХ | ДАТА: " +:+ today_date +:+ newline +:+
  repeat_char "=" 70 +:+ newline +:+ newline.

(** The state of the report while it is written: the content of the
    file and the segments handed to the matcher so far. *)
Record Report := {
  r_content : string;
  r_calls : list (option string)
}.

(** One turn of [for i, item in enumerate(segments_data, 1)]; [pos]
    counts from zero. *)
Definition report_step (env : Env) (default_similarity : Q) (r : Report)
    (turn : nat * LedgerEntry) : Report :=
  {| r_content :=
       r_content r +:+
       report_block (S turn.1) turn.2
         (report_labels env default_similarity turn.1 turn.2);
     r_calls :=
       if database_available env
       then r_calls r ++ [path turn.2] else r_calls r |}.

(** [generate_report]: nothing for an empty list, otherwise the name of
    the report file together with what has been written and asked. *)
Definition generate_report (now : datetime) (env : Env)
    (default_similarity : Q) (segments_data : list LedgerEntry)
    : option (string * Report) :=
  match segments_data with
  | [] => None
  | _ :: _ =>
      let today_date := strftime_date now in
      let report_file :=
        path_join "monitor_output" ("report_" +:+ today_date +:+ ".txt") in
      Some (report_file,
            foldl (report_step env default_similarity)
                  {| r_content := report_header today_date; r_calls := [] |}
                  (imap pair segments_data))
  end.

(** The blocks of a report one after the other, the first of them
    numbered [pos + 1]. *)
Fixpoint report_body (env : Env) (default_similarity : Q) (pos : nat)
    (segments_data : list LedgerEntry) : string :=
  match segments_data with
  | [] => ""
  | item :: rest =>
      report_block (S pos) item (report_labels env default_similarity pos item)
      +:+ report_body env default_similarity (S pos) rest
  end.

(** The labels of the blocks of a report, in order. *)
Definition report_rows (env : Env) (default_similarity : Q)
    (segments_data : list LedgerEntry) : list (string * string) :=
  imap (report_labels env default_similarity) segments_data.

(** ** More sample inputs *)

Module Demo.

(** A processor in the middle of a segment. *)
Definition busy : VideoProcessor.t :=
  {| VideoProcessor.writer := Some "old.mp4";
     VideoProcessor.recording := true;
     VideoProcessor.released := [] |}.

(** An entry already attributed. *)
Definition resolved_entry (p : string) : LedgerEntry :=
  {| path := Some p; time := "14:01:40"; violation := "phone";
     student := "Petrov"; confidence := "80%" |}.

(** A database is present; the matcher knows the face in [a.mp4], is not
    sure about [b.mp4] and fails on anything else. *)
Definition env_scores : Env :=
  {| entry_iter := λ _, elements;
     capture_frame_count := 1;
     database_available := true;
     analyze_video_segment := λ _ p _,
       if bool_decide (p = Some "a.mp4") then Matched "Ivanov" 0.9 "a.jpg"
       else if bool_decide (p = Some "b.mp4") then Matched "Sidorov" 0.3 "b.jpg"
       else MatchRaised;
     format_percent := λ _, "90%" |}.

(** The last second of a year, the first of the next, and the first
    second of the year's last day. *)
Definition last_second_of_2025 : datetime :=
  {| year := 2025; month := 12; day := 31;
     hour := 23; minute := 59; second := 59 |}.

Definition first_second_of_2026 : datetime :=
  {| year := 2026; month := 1; day := 1;
     hour := 0; minute := 0; second := 0 |}.

Definition first_second_of_last_day : datetime :=
  {| year := 2025; month := 12; day := 31;
     hour := 0; minute := 0; second := 0 |}.

(** A frame during which midnight strikes between the reading of
    [setup_output_dirs] and that of [generate_segment_filename]. *)
Definition midnight_frame (t : Q) (classes : list string) : @Frame unit :=
  {| f_time := t; f_now := last_second_of_2025;
     f_now_file := first_second_of_2026;
     f_now_close := first_second_of_2026;
     f_detections := Sample.shows classes |}.

(** A capture that reports no frames. *)
Definition env_no_frame_count : Env :=
  {| entry_iter := λ _, elements;
     capture_frame_count := 0;
     database_available := false;
     analyze_video_segment := λ _ _ _, MatchRaised;
     format_percent := λ _, "" |}.

(** A run whose accumulated set iterates in one order when the first
    entry is written and in the opposite order when the second is. *)
Definition env_alternating : Env :=
  {| entry_iter := λ k s,
       if Nat.even k then elements s else reverse (elements s);
     capture_frame_count := 1;
     database_available := false;
     analyze_video_segment := λ _ _ _, MatchRaised;
     format_percent := λ _, "" |}.

(** Every third frame sampled. *)
Definition cfg_skip3 : Config :=
  {| frame_skip := 3; buffer_seconds := 10; sleep_buffer := 10;
     face_similarity := 0.5 |}.

(** No sampling rate at all. *)
Definition cfg_skip0 : Config :=
  {| frame_skip := 0; buffer_seconds := 10; sleep_buffer := 10;
     face_similarity := 0.5 |}.

End Demo.

(** * Properties *)

Section FilterFacts.
Context {Box : Type}.
Implicit Types (d : gmap string (list Box)) (s : option Q) (t buf : Q).

Lemma add_other_classes_elem t (l : list string) (acc : gset string * option Q) x :
  x ∈ (foldl (add_other_class t) acc l).1 ↔
  x ∈ acc.1 ∨ (x ∈ l ∧ x ≠ "sleeping").
Proof.
  revert acc. induction l as [|c l IH]; intros acc; simpl.
  - set_solver.
  - rewrite IH. unfold add_other_class. case_bool_decide; simpl; set_solver.
Qed.

Lemma confirmed_of_elem t d s buf x :
  x ∈ confirmed_of t d s buf ↔
  (x = "sleeping" ∧ sleep_elapsed t d s buf = true) ∨
  (x ≠ "sleeping" ∧ x ∈ dom d).
Proof.
  unfold confirmed_of, process_frame_for_detection, sleep_elapsed.
  destruct (bool_decide (is_Some (d !! "sleeping"))) eqn:Hs; simpl.
  - replace (match s with Some t0 => t0 | None => t end) with (default t s)
      by (by destruct s).
    destruct (Qle_bool buf (t - default t s)) eqn:Hq.
    + destruct (foldl _ _ _) as [c l] eqn:Hf. simpl.
      change c with (c, l).1. rewrite <- Hf, add_other_classes_elem. simpl.
      rewrite elem_of_elements. set_solver.
    + destruct (foldl _ _ _) as [c l] eqn:Hf. simpl.
      change c with (c, l).1. rewrite <- Hf, add_other_classes_elem. simpl.
      rewrite elem_of_elements. set_solver.
  - destruct (foldl _ _ _) as [c l] eqn:Hf. simpl.
    change c with (c, l).1. rewrite <- Hf, add_other_classes_elem. simpl.
    rewrite elem_of_elements. set_solver.
Qed.

Lemma sleep_start_of_eq t d s buf :
  sleep_start_of t d s buf =
  if bool_decide (is_Some (d !! "sleeping")) then Some (default t s) else None.
Proof.
  unfold sleep_start_of, process_frame_for_detection.
  destruct (bool_decide (is_Some (d !! "sleeping"))); simpl.
  - destruct (Qle_bool _ _); destruct (foldl _ _ _); simpl; by destruct s.
  - by destruct (foldl _ _ _).
Qed.

Lemma sleep_elapsed_true t d s buf :
  sleep_elapsed t d s buf = true ↔
  is_Some (d !! "sleeping") ∧ (buf <= t - default t s)%Q.
Proof.
  unfold sleep_elapsed.
  rewrite andb_true_iff, bool_decide_eq_true, Qle_bool_iff. done.
Qed.

Lemma sleeping_confirmed_iff t d s buf :
  "sleeping" ∈ confirmed_of t d s buf ↔
  is_Some (d !! "sleeping") ∧ (buf <= t - default t s)%Q.
Proof.
  rewrite confirmed_of_elem, sleep_elapsed_true. naive_solver.
Qed.

Lemma confirm_run_app buf s (l1 l2 : list (Q * gmap string (list Box))) :
  confirm_run buf s (l1 ++ l2) =
  confirm_run buf s l1 ++ confirm_run buf (timer_after buf s l1) l2.
Proof.
  revert s. induction l1 as [|[t d] l1 IH]; intros s; simpl; [done|].
  by rewrite IH.
Qed.

Lemma confirm_run_length buf s (l : list (Q * gmap string (list Box))) :
  length (confirm_run buf s l) = length l.
Proof.
  revert s. induction l as [|[t d] l IH]; intros s; simpl; [done|].
  by rewrite IH.
Qed.

Lemma timer_after_snoc buf s (l : list (Q * gmap string (list Box))) t d :
  timer_after buf s (l ++ [(t, d)]) =
  sleep_start_of t d (timer_after buf s l) buf.
Proof. unfold timer_after. by rewrite foldl_app. Qed.

(** While sleeping is in every frame a running timer keeps its start,
    and a frame confirms sleeping exactly when [buf] has elapsed. *)
Lemma confirm_run_running buf begun (frames : list (Q * gmap string (list Box)))
    i t d :
  Forall (λ f, is_Some (f.2 !! "sleeping")) frames →
  frames !! i = Some (t, d) →
  ∃ c, confirm_run buf (Some begun) frames !! i = Some c ∧
       ("sleeping" ∈ c ↔ (buf <= t - begun)%Q).
Proof.
  revert i. induction frames as [|[t1 d1] frames IH]; intros i Hall Hi.
  - done.
  - apply Forall_cons in Hall as [Hd1 Hall]. simpl in Hd1.
    destruct i as [|i]; simpl in *.
    + injection Hi as -> ->. eexists. split; [done|].
      rewrite sleeping_confirmed_iff. simpl. naive_solver.
    + rewrite sleep_start_of_eq, bool_decide_eq_true_2 by done. simpl.
      by apply IH.
Qed.

Lemma confirm_run_fresh buf t0 d0 (rest : list (Q * gmap string (list Box)))
    i t d :
  Forall (λ f, is_Some (f.2 !! "sleeping")) ((t0, d0) :: rest) →
  ((t0, d0) :: rest) !! i = Some (t, d) →
  ∃ c, confirm_run buf None ((t0, d0) :: rest) !! i = Some c ∧
       ("sleeping" ∈ c ↔ (buf <= t - t0)%Q).
Proof.
  intros Hall Hi.
  destruct (confirm_run_running buf t0 _ i t d Hall Hi) as (c & Hc & Hiff).
  exists c. split; [|done].
  destruct i; simpl in *; [|by rewrite !sleep_start_of_eq in *].
  rewrite <- Hc. reflexivity.
Qed.

(** Whatever the timer held before, with sleeping in every frame the
    timer that counts is the one running after the first frame. *)
Lemma confirm_run_from buf s t0 d0
    (rest : list (Q * gmap string (list Box))) i t d :
  Forall (λ f, is_Some (f.2 !! "sleeping")) ((t0, d0) :: rest) →
  ((t0, d0) :: rest) !! i = Some (t, d) →
  ∃ c, confirm_run buf s ((t0, d0) :: rest) !! i = Some c ∧
       ("sleeping" ∈ c ↔ (buf <= t - default t0 s)%Q).
Proof.
  intros Hall Hi. destruct s as [begun|].
  - exact (confirm_run_running buf begun _ i t d Hall Hi).
  - exact (confirm_run_fresh buf t0 d0 rest i t d Hall Hi).
Qed.

(** C3.  With sleeping in every sampled frame, the filter confirms
  sleeping at the first frame at which the time elapsed since the timer
  started reaches [sleep_buffer] (the bound included), and at no
  earlier frame. *)
Theorem sleeping_confirmed_at_first_elapsed_frame buf s t0 d0
    (rest : list (Q * gmap string (list Box))) i ti di :
  Forall (λ f, is_Some (f.2 !! "sleeping")) ((t0, d0) :: rest) →
  ((t0, d0) :: rest) !! i = Some (ti, di) →
  (buf <= ti - default t0 s)%Q →
  (∀ j tj dj, (j < i)%nat → ((t0, d0) :: rest) !! j = Some (tj, dj) →
              (tj - default t0 s < buf)%Q) →
  (∃ ci, confirm_run buf s ((t0, d0) :: rest) !! i = Some ci ∧
         "sleeping" ∈ ci) ∧
  (∀ j cj, (j < i)%nat →
           confirm_run buf s ((t0, d0) :: rest) !! j = Some cj →
           "sleeping" ∉ cj).
Proof.
  intros Hall Hi Hel Hbefore. split.
  - destruct (confirm_run_from buf s t0 d0 rest i ti di Hall Hi)
      as (c & Hc & Hiff).
    exists c. split; [done|]. by apply Hiff.
  - intros j cj Hj Hcj Hin.
    assert (is_Some (((t0, d0) :: rest) !! j)) as [[tj dj] Hfj].
    { apply lookup_lt_is_Some. apply lookup_lt_Some in Hcj.
      by rewrite confirm_run_length in Hcj. }
    destruct (confirm_run_from buf s t0 d0 rest j tj dj Hall Hfj)
      as (c & Hc & Hiff).
    rewrite Hcj in Hc. injection Hc as <-.
    apply Hiff in Hin. specialize (Hbefore j tj dj Hj Hfj). lra.
Qed.

(** C10.  The confirmed set of a call is included in the classes of its
  detections, and is empty when nothing is detected. *)
Theorem confirmed_subset_of_detected t d s buf :
  confirmed_of t d s buf ⊆ dom d ∧ confirmed_of t (∅ : gmap string (list Box)) s buf = ∅.
Proof.
  assert (∀ d', confirmed_of t d' s buf ⊆ dom d') as Hsub.
  { intros d' x. rewrite confirmed_of_elem, sleep_elapsed_true.
    intros [(-> & Hs & _)|[_ Hx]]; [|done]. by apply elem_of_dom. }
  split; [done|].
  specialize (Hsub ∅). rewrite dom_empty_L in Hsub. set_solver.
Qed.

Lemma sleeping_throughout_cons f (frames : list (Q * gmap string (list Box)))
    k j :
  sleeping_throughout frames k j →
  sleeping_throughout (f :: frames) (S k) (S j).
Proof.
  intros H [|m] Hm; [lia|]. simpl. apply H. lia.
Qed.

Lemma sleeping_throughout_head t d
    (frames : list (Q * gmap string (list Box))) j :
  is_Some (d !! "sleeping") →
  sleeping_throughout frames 0 j →
  sleeping_throughout ((t, d) :: frames) 0 (S j).
Proof.
  intros Hd H [|m] Hm; simpl; [by eauto|]. apply H. lia.
Qed.

(** A confirmation of sleeping is backed either by a run of sleeping
    frames inside [frames] that lasted [buf], or by the timer that was
    already running when [frames] began. *)
Lemma sleeping_confirmation_backed buf
    (frames : list (Q * gmap string (list Box))) s j tj dj cj :
  frames !! j = Some (tj, dj) →
  confirm_run buf s frames !! j = Some cj →
  "sleeping" ∈ cj →
  (∃ k tk dk, (k ≤ j)%nat ∧ frames !! k = Some (tk, dk) ∧
              sleeping_throughout frames k j ∧ (buf <= tj - tk)%Q) ∨
  (∃ begun, s = Some begun ∧ sleeping_throughout frames 0 j ∧
            (buf <= tj - begun)%Q).
Proof.
  revert s j.
  induction frames as [|[t1 d1] frames IH]; intros s j Hj Hc Hin; [done|].
  destruct j as [|j]; simpl in *.
  - injection Hj as -> ->. injection Hc as <-.
    apply sleeping_confirmed_iff in Hin as [Hd Hq].
    assert (sleeping_throughout ((tj, dj) :: frames) 0 0) as Hrun.
    { intros m Hm. replace m with 0%nat by lia. simpl. eauto. }
    destruct s as [begun|]; simpl in Hq.
    + right. eauto.
    + left. exists 0%nat, tj, dj. done.
  - destruct (IH _ _ Hj Hc Hin) as
      [(k & tk & dk & Hk & Hfk & Hrun & Hq)|(begun & Hs & Hrun & Hq)].
    + left. exists (S k), tk, dk.
      split_and!; [lia|done| |done]. by apply sleeping_throughout_cons.
    + rewrite sleep_start_of_eq in Hs. case_bool_decide as Hd1; [|done].
      injection Hs as <-.
      pose proof (sleeping_throughout_head t1 d1 frames j Hd1 Hrun) as Hrun'.
      destruct s as [begun|]; simpl in Hq.
      * right. eauto.
      * left. exists 0%nat, t1, d1. split_and!; [lia|done|done|done].
Qed.

(** C4.  A sampled frame without sleeping resets the timer to [None];
  any later confirmation of sleeping is backed by frames after the gap
  that show sleeping without interruption over at least
  [sleep_buffer]. *)
Theorem gap_restarts_sleep_debounce buf s
    (pre post : list (Q * gmap string (list Box))) tg dg :
  dg !! "sleeping" = None →
  timer_after buf s (pre ++ [(tg, dg)]) = None ∧
  ∀ j tj dj cj,
    post !! j = Some (tj, dj) →
    confirm_run buf s (pre ++ (tg, dg) :: post) !! (length pre + 1 + j)%nat
      = Some cj →
    "sleeping" ∈ cj →
    ∃ k tk dk, (k ≤ j)%nat ∧ post !! k = Some (tk, dk) ∧
               sleeping_throughout post k j ∧ (buf <= tj - tk)%Q.
Proof.
  intros Hgap.
  assert (timer_after buf s (pre ++ [(tg, dg)]) = None) as Hreset.
  { rewrite timer_after_snoc, sleep_start_of_eq.
    rewrite bool_decide_eq_false_2; [done|].
    rewrite Hgap. by intros [? ?]. }
  split; [done|]. intros j tj dj cj Hj Hc Hin.
  replace (pre ++ (tg, dg) :: post) with ((pre ++ [(tg, dg)]) ++ post) in Hc
    by (by rewrite <- app_assoc).
  rewrite confirm_run_app, Hreset in Hc.
  rewrite lookup_app_r in Hc
    by (rewrite confirm_run_length, length_app; simpl; lia).
  rewrite confirm_run_length, length_app in Hc. simpl in Hc.
  replace (length pre + 1 + j - (length pre + 1))%nat with j in Hc by lia.
  destruct (sleeping_confirmation_backed buf post None j tj dj cj Hj Hc Hin)
    as [Hrun|(begun & Hs & _)]; [done|discriminate].
Qed.
End FilterFacts.

Lemma set_truthy_true (c : gset string) : set_truthy c = true ↔ c ≠ ∅.
Proof. unfold set_truthy. by rewrite bool_decide_eq_true. Qed.

Lemma set_truthy_false (c : gset string) : set_truthy c = false ↔ c = ∅.
Proof.
  unfold set_truthy. rewrite bool_decide_eq_false.
  split; [apply dec_stable | by intros ->; intros H].
Qed.

Lemma float_truthy_true (x : Q) : float_truthy x = true ↔ ¬ (x == 0)%Q.
Proof.
  unfold float_truthy. rewrite negb_true_iff, <- not_true_iff_false.
  by rewrite Qeq_bool_iff.
Qed.

Lemma Qlt_bool_true (x y : Q) : Qlt_bool x y = true ↔ (x < y)%Q.
Proof.
  unfold Qlt_bool. rewrite negb_true_iff, <- not_true_iff_false, Qle_bool_iff.
  split; [apply Qnot_le_lt | apply Qlt_not_le].
Qed.

Lemma Qlt_bool_false (x y : Q) : Qlt_bool x y = false ↔ (y <= x)%Q.
Proof.
  unfold Qlt_bool. rewrite negb_false_iff, Qle_bool_iff. done.
Qed.

Section RecorderFacts.
Context {Box : Type}.
Implicit Types (st : @LoopState Box) (f g : @Frame Box) (h : Handler)
  (cfg : Config) (env : Env).

(** The filter stamps a detection time exactly when it confirms. *)
Lemma add_other_classes_time t (l : list string)
    (acc : gset string * option Q) :
  acc.2 = (if decide (acc.1 = ∅) then None else Some t) →
  (foldl (add_other_class t) acc l).2 =
  if decide ((foldl (add_other_class t) acc l).1 = ∅) then None else Some t.
Proof.
  revert acc. induction l as [|c l IH]; intros acc Hacc; simpl; [done|].
  apply IH. unfold add_other_class. case_bool_decide; simpl; [|done].
  rewrite decide_False; [done|set_solver].
Qed.

Lemma detection_time_of_eq t (d : gmap string (list Box)) s buf :
  detection_time_of t d s buf =
  if decide (confirmed_of t d s buf = ∅) then None else Some t.
Proof.
  unfold detection_time_of, confirmed_of, process_frame_for_detection.
  destruct (bool_decide (is_Some (d !! "sleeping"))); simpl;
    [destruct (Qle_bool _ _)|];
    match goal with
    | |- context [foldl ?step ?acc ?l] =>
        pose proof (add_other_classes_time t l acc) as Hfold;
        destruct (foldl step acc l) as [c stamp]
    end; simpl in *; by apply Hfold.
Qed.

(** The detection block in terms of the filter's three answers. *)
Lemma detect_stage_eq cfg st f :
  detect_stage cfg st f =
  let c := frame_confirmed cfg st f in
  let on := sampled cfg (frame_count st + 1) in
  {| frame_count := frame_count st + 1;
     sleep_start_time :=
       if on then sleep_start_of (f_time f) (f_detections f)
                   (sleep_start_time st) (sleep_buffer cfg)
       else sleep_start_time st;
     last_detection_time :=
       if set_truthy c && float_truthy (f_time f)
       then Some (f_time f) else last_detection_time st;
     last_recording_end_time := last_recording_end_time st;
     recording := recording st;
     rec_violations := rec_violations st;
     current_segment_path := current_segment_path st;
     last_detections := if on then f_detections f else last_detections st;
     last_confirmed_violations :=
       if on then c else last_confirmed_violations st;
     violations_log := violations_log st;
     video_processor := video_processor st |}.
Proof.
  unfold detect_stage, frame_confirmed. simpl.
  destruct (sampled cfg (frame_count st + 1)); [|done].
  pose proof (detection_time_of_eq (f_time f) (f_detections f)
                (sleep_start_time st) (sleep_buffer cfg)) as Hdt.
  unfold detection_time_of, confirmed_of, sleep_start_of in *.
  destruct (process_frame_for_detection _ _ _ _) as [[c s] dt]. simpl in *.
  subst dt. f_equal.
  unfold set_truthy. destruct (decide (c = ∅)) as [->|Hc].
  - by rewrite bool_decide_eq_false_2 by (by intros H).
  - rewrite bool_decide_eq_true_2 by done. simpl.
    by destruct (float_truthy (f_time f)).
Qed.

(** The network routine's recording logic does what the other two do. *)
Lemma record_stage_eq h cfg (c : gset string) st f :
  (sampled cfg (frame_count st) = false → c = ∅) →
  record_stage h cfg c st f =
  if set_truthy c then
    if recording st then extend_segment c st else open_segment c st f
  else st.
Proof.
  intros Hc. destruct h; simpl.
  1,2: by destruct (set_truthy c), (recording st).
  destruct (sampled cfg (frame_count st)) eqn:Hs.
  - destruct (set_truthy c), (recording st) eqn:Hr; simpl; try done.
    + by rewrite Hr.
    + unfold extend_segment, open_segment. simpl. f_equal. set_solver.
  - rewrite Hc by done. done.
Qed.

Lemma frame_confirmed_unsampled cfg st f :
  sampled cfg (frame_count st + 1) = false → frame_confirmed cfg st f = ∅.
Proof. unfold frame_confirmed. by intros ->. Qed.

Lemma process_frame_eq h cfg env st f :
  process_frame h cfg env st f =
  if close_due cfg (before_close h cfg st f) f
  then close_segment h env (before_close h cfg st f) f
  else before_close h cfg st f.
Proof. done. Qed.

Lemma before_close_eq h cfg st f :
  before_close h cfg st f =
  let c := frame_confirmed cfg st f in
  let st1 := detect_stage cfg st f in
  if set_truthy c then
    if recording st then extend_segment c st1 else open_segment c st1 f
  else st1.
Proof.
  unfold before_close. rewrite record_stage_eq.
  - rewrite detect_stage_eq. done.
  - rewrite detect_stage_eq. simpl. apply frame_confirmed_unsampled.
Qed.

Lemma before_close_recording h cfg st f :
  recording (before_close h cfg st f) =
  recording st || set_truthy (frame_confirmed cfg st f).
Proof.
  rewrite before_close_eq, detect_stage_eq. simpl.
  by destruct (set_truthy _), (recording st) eqn:Hr.
Qed.

Lemma before_close_rec_violations h cfg st f :
  rec_violations (before_close h cfg st f) =
  if recording st then rec_violations st ∪ frame_confirmed cfg st f
  else if set_truthy (frame_confirmed cfg st f)
       then frame_confirmed cfg st f else rec_violations st.
Proof.
  rewrite before_close_eq, detect_stage_eq. simpl.
  destruct (set_truthy _) eqn:Hc, (recording st); simpl; try done.
  apply set_truthy_false in Hc. rewrite Hc. set_solver.
Qed.

Lemma before_close_log h cfg st f :
  violations_log (before_close h cfg st f) = violations_log st.
Proof.
  rewrite before_close_eq, detect_stage_eq. simpl.
  by destruct (set_truthy _), (recording st).
Qed.

Lemma before_close_path h cfg st f :
  current_segment_path (before_close h cfg st f) =
  if set_truthy (frame_confirmed cfg st f) && negb (recording st)
  then Some (segment_path (f_now f) (f_now_file f)) else current_segment_path st.
Proof.
  rewrite before_close_eq, detect_stage_eq. simpl.
  by destruct (set_truthy _), (recording st).
Qed.

Lemma before_close_last_detection h cfg st f :
  last_detection_time (before_close h cfg st f) =
  if set_truthy (frame_confirmed cfg st f) && float_truthy (f_time f)
  then Some (f_time f) else last_detection_time st.
Proof.
  rewrite before_close_eq, detect_stage_eq. simpl.
  by destruct (set_truthy _), (recording st).
Qed.

Lemma run_frames_snoc h cfg env st (l : list Frame) f :
  run_frames h cfg env st (l ++ [f]) =
  process_frame h cfg env (run_frames h cfg env st l) f.
Proof. unfold run_frames. by rewrite foldl_app. Qed.

Lemma run_frames_app h cfg env st (l1 l2 : list Frame) :
  run_frames h cfg env st (l1 ++ l2) =
  run_frames h cfg env (run_frames h cfg env st l1) l2.
Proof. unfold run_frames. by rewrite foldl_app. Qed.

Lemma confirmed_trace_app h cfg env st (l1 l2 : list Frame) :
  confirmed_trace h cfg env st (l1 ++ l2) =
  confirmed_trace h cfg env st l1 ++
  confirmed_trace h cfg env (run_frames h cfg env st l1) l2.
Proof.
  revert st. induction l1 as [|f l1 IH]; intros st; simpl; [done|].
  by rewrite IH.
Qed.

Lemma quiet_frames_app h cfg env st (l1 l2 : list Frame) :
  quiet_frames h cfg env st (l1 ++ l2) ↔
  quiet_frames h cfg env st l1 ∧
  quiet_frames h cfg env (run_frames h cfg env st l1) l2.
Proof.
  revert st. induction l1 as [|f l1 IH]; intros st; simpl; [tauto|].
  rewrite IH. tauto.
Qed.

(** *** Steps of an open segment *)

Lemma step_keeps_recording h cfg env st f :
  recording st = true →
  recording (process_frame h cfg env st f) = true →
  rec_violations (process_frame h cfg env st f) =
    rec_violations st ∪ frame_confirmed cfg st f ∧
  violations_log (process_frame h cfg env st f) = violations_log st ∧
  current_segment_path (process_frame h cfg env st f) =
    current_segment_path st.
Proof.
  intros Hr. rewrite process_frame_eq.
  destruct (close_due _ _ _); [done|]. intros _.
  rewrite before_close_rec_violations, before_close_log, before_close_path.
  rewrite Hr, andb_false_r. done.
Qed.

Lemma step_opens h cfg env st f :
  recording st = false →
  recording (process_frame h cfg env st f) = true →
  frame_confirmed cfg st f ≠ ∅ ∧
  rec_violations (process_frame h cfg env st f) = frame_confirmed cfg st f ∧
  violations_log (process_frame h cfg env st f) = violations_log st ∧
  current_segment_path (process_frame h cfg env st f) =
    Some (segment_path (f_now f) (f_now_file f)).
Proof.
  intros Hr. rewrite process_frame_eq.
  destruct (close_due _ _ _); [done|].
  rewrite before_close_recording, before_close_rec_violations,
    before_close_log, before_close_path, Hr. simpl.
  intros Hc. rewrite Hc. by apply set_truthy_true in Hc.
Qed.

Lemma step_closes h cfg env st f :
  recording st = true ∨ frame_confirmed cfg st f ≠ ∅ →
  recording (process_frame h cfg env st f) = false →
  ∃ e, violations_log (process_frame h cfg env st f) =
         violations_log st ++ [e] ∧
       violation e =
         render_violation h (entry_iter env (length (violations_log st)))
           (if recording st
            then rec_violations st ∪ frame_confirmed cfg st f
            else frame_confirmed cfg st f) ∧
       rec_violations (process_frame h cfg env st f) =
         (if recording st
          then rec_violations st ∪ frame_confirmed cfg st f
          else frame_confirmed cfg st f).
Proof.
  intros Hopen. rewrite process_frame_eq.
  destruct (close_due _ _ _).
  - intros _. eexists. split; [|split].
    + simpl. by rewrite before_close_log.
    + simpl. rewrite before_close_rec_violations, before_close_log.
      destruct (recording st); [done|].
      destruct Hopen as [?|Hc]; [done|].
      apply set_truthy_true in Hc. by rewrite Hc.
    + simpl. rewrite before_close_rec_violations.
      destruct (recording st); [done|].
      destruct Hopen as [?|Hc]; [done|].
      apply set_truthy_true in Hc. by rewrite Hc.
  - rewrite before_close_recording. intros Hr.
    apply orb_false_iff in Hr as [Hr Hc].
    apply set_truthy_false in Hc. destruct Hopen; congruence.
Qed.

Lemma open_segment_accumulates h cfg env st (frames : list Frame) :
  recording st = true →
  stays_recording h cfg env st frames →
  recording (run_frames h cfg env st frames) = true ∧
  rec_violations (run_frames h cfg env st frames) =
    rec_violations st ∪ ⋃ confirmed_trace h cfg env st frames ∧
  violations_log (run_frames h cfg env st frames) = violations_log st.
Proof.
  revert st. induction frames as [|f frames IH]; intros st Hr Hstay; simpl.
  - split_and!; [done| |done]. set_solver.
  - destruct Hstay as [Hr' Hstay].
    destruct (step_keeps_recording h cfg env st f Hr Hr') as (Hrec & Hlog & _).
    destruct (IH _ Hr' Hstay) as (? & Hrec' & Hlog').
    split_and!; [done| |congruence].
    unfold run_frames in *. rewrite Hrec', Hrec. set_solver.
Qed.

Lemma union_list_permutation (l1 l2 : list (gset string)) :
  l1 ≡ₚ l2 → ⋃ l1 = ⋃ l2.
Proof.
  induction 1; simpl; [done|congruence|set_solver|congruence].
Qed.

(** A segment that opens at the first frame of a run and closes at its
    last: the accumulated set is then the union of the confirmed sets of
    the run, the union is not empty, and the one entry appended renders
    it in the iteration order of that entry. *)
Lemma closed_segment_union h cfg env st (pre : list Frame) f :
  recording st = false →
  stays_recording h cfg env st pre →
  (pre = [] → frame_confirmed cfg st f ≠ ∅) →
  recording (run_frames h cfg env st (pre ++ [f])) = false →
  ∃ e, violations_log (run_frames h cfg env st (pre ++ [f])) =
         violations_log st ++ [e] ∧
       ∀ sets, sets ≡ₚ confirmed_trace h cfg env st (pre ++ [f]) →
         ⋃ sets ≠ ∅ ∧
         rec_violations (run_frames h cfg env st (pre ++ [f])) = ⋃ sets ∧
         violation e =
           render_violation h (entry_iter env (length (violations_log st)))
             (⋃ sets).
Proof.
  intros Hidle Hstay Hfirst Hclosed.
  destruct pre as [|f1 pre]; simpl in *.
  - destruct (step_closes h cfg env st f (or_intror (Hfirst eq_refl)) Hclosed)
      as (e & Hlog & Hv & Hrec).
    exists e. split; [done|]. intros sets Hp.
    rewrite (union_list_permutation _ _ Hp), Hv, Hrec, Hidle. simpl.
    assert (frame_confirmed cfg st f ∪ ∅ = frame_confirmed cfg st f) as ->
      by set_solver.
    split_and!; [by apply Hfirst|done|done].
  - destruct Hstay as [Hr1 Hstay].
    destruct (step_opens h cfg env st f1 Hidle Hr1) as (Hne & Hrec1 & Hlog1 & _).
    set (st1 := process_frame h cfg env st f1) in *.
    destruct (open_segment_accumulates h cfg env st1 pre Hr1 Hstay)
      as (Hr2 & Hrec2 & Hlog2).
    fold (run_frames h cfg env st1 (pre ++ [f])) in Hclosed |- *.
    rewrite run_frames_snoc in Hclosed |- *.
    set (st2 := run_frames h cfg env st1 pre) in *.
    destruct (step_closes h cfg env st2 f (or_introl Hr2) Hclosed)
      as (e & Hlog & Hv & Hrec).
    exists e. split; [congruence|]. intros sets Hp.
    rewrite (union_list_permutation _ _ Hp), Hv, Hrec, Hr2, Hrec2, Hrec1,
      Hlog2, Hlog1.
    rewrite confirmed_trace_app. fold st2. simpl.
    rewrite union_list_app_L. simpl.
    assert (frame_confirmed cfg st f1 ∪ ⋃ confirmed_trace h cfg env st1 pre
              ∪ frame_confirmed cfg st2 f =
            frame_confirmed cfg st f1 ∪
              (⋃ confirmed_trace h cfg env st1 pre ∪
               (frame_confirmed cfg st2 f ∪ ∅))) as -> by set_solver.
    split_and!; [set_solver|done|done].
Qed.
End RecorderFacts.

Section BufferFacts.
Context {Box : Type}.
Implicit Types (st : @LoopState Box) (f g : @Frame Box) (h : Handler)
  (cfg : Config) (env : Env).

Lemma closing_entry_eq h env st st' f :
  violations_log st' = violations_log st →
  current_segment_path st' = current_segment_path st →
  rec_violations st' = rec_violations st →
  closing_entry h env st' f = closing_entry h env st f.
Proof. unfold closing_entry. by intros -> -> ->. Qed.

(** A confirming frame at a non-zero time leaves a segment open whose
    last confirmation is that time. *)
Lemma confirming_step h cfg env st f :
  frame_confirmed cfg st f ≠ ∅ →
  ¬ (f_time f == 0)%Q →
  (0 <= buffer_seconds cfg)%Q →
  recording (process_frame h cfg env st f) = true ∧
  last_detection_time (process_frame h cfg env st f) = Some (f_time f) ∧
  violations_log (process_frame h cfg env st f) = violations_log st.
Proof.
  intros Hc Ht Hbuf.
  apply set_truthy_true in Hc. apply float_truthy_true in Ht.
  assert (close_due cfg (before_close h cfg st f) f = false) as Hdue.
  { unfold close_due.
    rewrite before_close_recording, before_close_last_detection, Hc, Ht.
    rewrite orb_true_r. simpl. rewrite Ht. simpl.
    apply Qlt_bool_false. lra. }
  rewrite process_frame_eq, Hdue.
  rewrite before_close_recording, before_close_last_detection,
    before_close_log, Hc, Ht, orb_true_r. done.
Qed.

(** A frame without confirmation, met by an open segment: the segment
    closes exactly when the frame is later than the last confirmation
    by more than the buffer. *)
Lemma quiet_step h cfg env st f T :
  recording st = true →
  last_detection_time st = Some T →
  ¬ (T == 0)%Q →
  frame_confirmed cfg st f = ∅ →
  if Qlt_bool (buffer_seconds cfg) (f_time f - T)
  then recording (process_frame h cfg env st f) = false ∧
       violations_log (process_frame h cfg env st f) =
         violations_log st ++ [closing_entry h env st f]
  else recording (process_frame h cfg env st f) = true ∧
       last_detection_time (process_frame h cfg env st f) = Some T ∧
       violations_log (process_frame h cfg env st f) = violations_log st ∧
       rec_violations (process_frame h cfg env st f) = rec_violations st ∧
       current_segment_path (process_frame h cfg env st f) =
         current_segment_path st.
Proof.
  intros Hr Hlast HT Hc. apply float_truthy_true in HT.
  assert (set_truthy (frame_confirmed cfg st f) = false) as Hq
    by (by apply set_truthy_false).
  assert (close_due cfg (before_close h cfg st f) f =
          Qlt_bool (buffer_seconds cfg) (f_time f - T)) as Hdue.
  { unfold close_due.
    rewrite before_close_recording, before_close_last_detection, Hq, Hr, Hlast.
    simpl. by rewrite HT. }
  assert (rec_violations (before_close h cfg st f) = rec_violations st) as Hrec.
  { rewrite before_close_rec_violations, Hr, Hc. set_solver. }
  assert (current_segment_path (before_close h cfg st f) =
          current_segment_path st) as Hpath.
  { by rewrite before_close_path, Hq. }
  rewrite process_frame_eq, Hdue.
  destruct (Qlt_bool _ _); simpl.
  - rewrite before_close_log. split; [done|].
    do 2 f_equal. apply closing_entry_eq; [apply before_close_log|done..].
  - rewrite before_close_recording, before_close_last_detection,
      before_close_log, Hq, Hr, Hlast. done.
Qed.

(** Frames without confirmation that all fall inside the buffer leave
    the segment as it was. *)
Lemma quiet_frames_inside_buffer h cfg env st (quiet : list Frame) T :
  recording st = true →
  last_detection_time st = Some T →
  ¬ (T == 0)%Q →
  quiet_frames h cfg env st quiet →
  Forall (λ g, (f_time g <= T + buffer_seconds cfg)%Q) quiet →
  recording (run_frames h cfg env st quiet) = true ∧
  last_detection_time (run_frames h cfg env st quiet) = Some T ∧
  violations_log (run_frames h cfg env st quiet) = violations_log st ∧
  rec_violations (run_frames h cfg env st quiet) = rec_violations st ∧
  current_segment_path (run_frames h cfg env st quiet) =
    current_segment_path st.
Proof.
  revert st. induction quiet as [|g quiet IH];
    intros st Hr Hlast HT Hquiet Hin; simpl; [done|].
  destruct Hquiet as [Hc Hquiet]. apply Forall_cons in Hin as [Hg Hin].
  pose proof (quiet_step h cfg env st g T Hr Hlast HT Hc) as Hstep.
  rewrite (proj2 (Qlt_bool_false _ _)) in Hstep by lra.
  destruct Hstep as (Hr' & Hlast' & Hlog' & Hrec' & Hpath').
  destruct (IH _ Hr' Hlast' HT Hquiet Hin) as (? & ? & ? & ? & ?).
  unfold run_frames in *. split_and!; congruence.
Qed.

(** C2, amended.  After a confirmation at a non-zero time [T'] and with
  no further confirmation, the segment is still open, and nothing has
  been logged for it, after every frame whose time is at most
  [T' + buffer_seconds]; the first frame whose time is strictly greater
  than [T' + buffer_seconds] closes it and appends its one entry. *)
Theorem segment_closes_at_first_frame_past_buffer h cfg env st
    (f0 : Frame) (quiet : list Frame) f :
  frame_confirmed cfg st f0 ≠ ∅ →
  ¬ (f_time f0 == 0)%Q →
  (0 <= buffer_seconds cfg)%Q →
  quiet_frames h cfg env (process_frame h cfg env st f0) (quiet ++ [f]) →
  Forall (λ g, (f_time g <= f_time f0 + buffer_seconds cfg)%Q) quiet →
  (f_time f0 + buffer_seconds cfg < f_time f)%Q →
  let opened := process_frame h cfg env st f0 in
  let waiting := run_frames h cfg env opened quiet in
  recording opened = true ∧
  (∀ k, recording (run_frames h cfg env opened (take k quiet)) = true ∧
        violations_log (run_frames h cfg env opened (take k quiet)) =
          violations_log st) ∧
  recording (process_frame h cfg env waiting f) = false ∧
  violations_log (process_frame h cfg env waiting f) =
    violations_log st ++ [closing_entry h env opened f].
Proof.
  intros Hc Ht Hbuf Hquiet Hin Hlate opened waiting.
  destruct (confirming_step h cfg env st f0 Hc Ht Hbuf) as (Hr & Hlast & Hlog).
  fold opened in Hr, Hlast, Hlog, Hquiet.
  apply quiet_frames_app in Hquiet as [Hquiet Hlastq].
  fold waiting in Hlastq. simpl in Hlastq. destruct Hlastq as [Hcf _].
  split; [done|]. split.
  - intros k.
    assert (quiet_frames h cfg env opened (take k quiet)) as Hqk.
    { rewrite <- (take_drop k quiet) in Hquiet.
      by apply quiet_frames_app in Hquiet as [? _]. }
    assert (Forall (λ g, (f_time g <= f_time f0 + buffer_seconds cfg)%Q)
              (take k quiet)) as Hink by (by apply Forall_take).
    destruct (quiet_frames_inside_buffer h cfg env opened _ _ Hr Hlast Ht
                Hqk Hink) as (? & _ & ? & _).
    split; congruence.
  - destruct (quiet_frames_inside_buffer h cfg env opened _ _ Hr Hlast Ht
                Hquiet Hin) as (Hr' & Hlast' & Hlog' & Hrec' & Hpath').
    fold waiting in Hr', Hlast', Hlog', Hrec', Hpath'.
    pose proof (quiet_step h cfg env waiting f _ Hr' Hlast' Ht Hcf) as Hstep.
    rewrite (proj2 (Qlt_bool_true _ _)) in Hstep by lra.
    destruct Hstep as [Hclosed Hentry]. split; [done|].
    rewrite Hentry, Hlog', Hlog. do 2 f_equal.
    apply closing_entry_eq; [congruence|done..].
Qed.
End BufferFacts.

Section AttributionFacts.
Implicit Types (env : Env) (cfg : Config) (log : list LedgerEntry)
  (e : LedgerEntry).

(** The loop over the pending indices, started in the middle of a log
    whose first part [seen] has been dealt with. *)
Lemma attribute_loop env cfg log (seen : list LedgerEntry)
    (calls : list (option string)) (n : nat) :
  foldl (attribute_step env cfg) (seen ++ log, calls)
        (imap (λ idx i, ((n + idx)%nat, i)) (pending_from (length seen) log))
  = (seen ++ resolve_from env cfg n log, calls ++ pending_paths log).
Proof.
  revert seen calls n.
  induction log as [|e log IH]; intros seen calls n; simpl.
  - unfold pending_paths. simpl. by rewrite !app_nil_r.
  - unfold pending_paths. rewrite filter_cons.
    destruct (is_pending e) eqn:He; simpl.
    + unfold attribute_step at 2. simpl.
      rewrite list_lookup_middle by done.
      replace (<[length seen:=resolve_entry env cfg (n + 0) e]> (seen ++ e :: log))
        with ((seen ++ [resolve_entry env cfg n e]) ++ log).
      2:{ rewrite Nat.add_0_r.
          replace (length seen) with (length seen + 0)%nat at 1 by lia.
          rewrite insert_app_r. simpl. by rewrite <- app_assoc. }
      replace (S (length seen)) with (length (seen ++ [resolve_entry env cfg n e]))
        by (rewrite length_app; simpl; lia).
      rewrite (imap_ext _ (λ idx i, ((S n + idx)%nat, i)))
        by (intros; simpl; f_equal; lia).
      fold (pending_paths log). rewrite IH. by rewrite <- !app_assoc.
    + replace (seen ++ e :: log) with ((seen ++ [e]) ++ log)
        by (by rewrite <- app_assoc).
      replace (S (length seen)) with (length (seen ++ [e]))
        by (rewrite length_app; simpl; lia).
      fold (pending_paths log). rewrite IH. by rewrite <- !app_assoc.
Qed.

Lemma attribute_with_database_eq env cfg log :
  attribute_with_database env cfg log =
  (resolve_from env cfg 0 log, pending_paths log).
Proof.
  unfold attribute_with_database, violations_to_process.
  apply (attribute_loop env cfg log [] [] 0).
Qed.

Lemma resolve_from_length env cfg n log :
  length (resolve_from env cfg n log) = length log.
Proof.
  revert n. induction log as [|e log IH]; intros n; simpl; [done|].
  destruct (is_pending e); simpl; by rewrite IH.
Qed.

Lemma call_number_S e log k :
  call_number (e :: log) (S k) =
  ((if is_pending e then 1 else 0) + call_number log k)%nat.
Proof.
  unfold call_number. change (take (S k) (e :: log)) with (e :: take k log).
  destruct (is_pending e) eqn:He.
  - by rewrite filter_cons_True.
  - by rewrite filter_cons_False by (by rewrite He).
Qed.

Lemma resolve_from_lookup env cfg n log k e :
  log !! k = Some e →
  resolve_from env cfg n log !! k =
  Some (if is_pending e
        then resolve_entry env cfg (n + call_number log k) e else e).
Proof.
  revert n k. induction log as [|e1 log IH]; intros n k Hk; [done|].
  destruct k as [|k]; simpl in *.
  - injection Hk as ->. unfold call_number. simpl. rewrite Nat.add_0_r.
    by destruct (is_pending e).
  - rewrite call_number_S.
    destruct (is_pending e1); simpl; rewrite (IH _ _ Hk).
    + by replace (S n + call_number log k)%nat
        with (n + S (call_number log k))%nat by lia.
    + done.
Qed.

Lemma resolve_entry_raised env cfg idx e :
  analyze_video_segment env idx (path e) (face_similarity cfg) = MatchRaised →
  resolve_entry env cfg idx e = analysis_error_entry e.
Proof. unfold resolve_entry. by intros ->. Qed.

(** C8.  When the matcher raises on pending entry [k], that entry gets
  the analysis-error values; the log keeps its length; every other
  entry is exactly what its own matcher call, if it had one, makes of
  it; and every pending segment has been handed to the matcher. *)
Theorem matcher_failure_touches_only_its_entry env cfg log k ek :
  database_available env = true →
  log !! k = Some ek →
  is_pending ek = true →
  analyze_video_segment env (call_number log k) (path ek)
    (face_similarity cfg) = MatchRaised →
  (face_analysis env cfg log).1 !! k = Some (analysis_error_entry ek) ∧
  length (face_analysis env cfg log).1 = length log ∧
  (∀ j ej, j ≠ k → log !! j = Some ej →
     (face_analysis env cfg log).1 !! j =
     Some (if is_pending ej
           then resolve_entry env cfg (call_number log j) ej else ej)) ∧
  (face_analysis env cfg log).2 = pending_paths log.
Proof.
  intros Hdb Hk Hpend Hraise.
  assert (face_analysis env cfg log =
          (resolve_from env cfg 0 log, pending_paths log)) as ->.
  { unfold face_analysis. rewrite Hdb, attribute_with_database_eq.
    by destruct log. }
  simpl. split_and!.
  - rewrite (resolve_from_lookup _ _ _ _ _ _ Hk), Hpend. simpl.
    by rewrite resolve_entry_raised.
  - apply resolve_from_length.
  - intros j ej _ Hj. by rewrite (resolve_from_lookup _ _ _ _ _ _ Hj).
  - done.
Qed.

Lemma mark_no_database_not_pending e : is_pending (mark_no_database e) = false.
Proof.
  unfold mark_no_database. destruct (is_pending e) eqn:He; [|done].
  reflexivity.
Qed.

(** C9.  Without a face database the pass calls the matcher for no
  entry, gives every pending entry the no-database values, changes no
  other entry and leaves none pending. *)
Theorem no_database_closes_every_pending_entry env cfg log :
  database_available env = false →
  (face_analysis env cfg log).2 = [] ∧
  (face_analysis env cfg log).1 = mark_no_database <$> log ∧
  Forall (λ e, is_pending e = false) (face_analysis env cfg log).1 ∧
  (∀ k e, log !! k = Some e → is_pending e = true →
     (face_analysis env cfg log).1 !! k =
     Some {| path := path e; time := time e; violation := violation e;
             student := NOT_RECOGNISED; confidence := NO_DATABASE |}).
Proof.
  intros Hdb.
  assert (face_analysis env cfg log = (mark_no_database <$> log, [])) as ->.
  { unfold face_analysis. rewrite Hdb. by destruct log. }
  simpl. split_and!; [done|done| |].
  - apply Forall_fmap, Forall_forall. intros e _. simpl.
    apply mark_no_database_not_pending.
  - intros k e Hk He. rewrite list_lookup_fmap, Hk. simpl.
    unfold mark_no_database. by rewrite He.
Qed.
End AttributionFacts.

(** ** Segment paths *)

Lemma digit_eq_mod a b : digit a = digit b → a `mod` 10 = b `mod` 10.
Proof.
  unfold digit. intros H. apply (f_equal nat_of_ascii) in H.
  pose proof (Z.mod_pos_bound a 10 eq_refl).
  pose proof (Z.mod_pos_bound b 10 eq_refl).
  rewrite !nat_ascii_embedding in H by lia. lia.
Qed.

Lemma pad2_inj a b : 0 ≤ a < 100 → 0 ≤ b < 100 → pad2 a = pad2 b → a = b.
Proof.
  intros Ha Hb H. unfold pad2 in H. injection H as H1 H0.
  apply digit_eq_mod in H1, H0.
  revert H1 H0. Z.div_mod_to_equations. lia.
Qed.

Lemma pad4_inj a b : 0 ≤ a < 10000 → 0 ≤ b < 10000 → pad4 a = pad4 b → a = b.
Proof.
  intros Ha Hb H. unfold pad4 in H. injection H as H3 H2 H1 H0.
  apply digit_eq_mod in H3, H2, H1, H0.
  revert H3 H2 H1 H0. Z.div_mod_to_equations. lia.
Qed.

Lemma append_assoc (a b c : string) : (a +:+ b) +:+ c = a +:+ (b +:+ c).
Proof.
  induction a as [|x a IH]; [done|].
  change (String x ((a +:+ b) +:+ c) = String x (a +:+ (b +:+ c))).
  by rewrite IH.
Qed.

Lemma append_inj_l (p a b : string) : p +:+ a = p +:+ b → a = b.
Proof. induction p as [|c p IH]; simpl; [done|]. intros [=]. auto. Qed.

Lemma pad2_append_inj a b (r r' : string) :
  pad2 a +:+ r = pad2 b +:+ r' → pad2 a = pad2 b ∧ r = r'.
Proof. unfold pad2. simpl. intros [= H1 H0 Hr]. by rewrite H1, H0. Qed.

Lemma pad4_append_inj a b (r r' : string) :
  pad4 a +:+ r = pad4 b +:+ r' → pad4 a = pad4 b ∧ r = r'.
Proof.
  unfold pad4. simpl. intros [= H3 H2 H1 H0 Hr]. by rewrite H3, H2, H1, H0.
Qed.

Lemma segment_path_inj d1 n1 d2 n2 :
  valid_datetime d1 → valid_datetime n1 →
  valid_datetime d2 → valid_datetime n2 →
  segment_path d1 n1 = segment_path d2 n2 →
  same_date d1 d2 ∧ same_time_of_day n1 n2.
Proof.
  intros (Hy1 & Hm1 & Hd1 & _) (_ & _ & _ & Hh1 & Hmi1 & Hs1)
         (Hy2 & Hm2 & Hd2 & _) (_ & _ & _ & Hh2 & Hmi2 & Hs2).
  unfold segment_path, VideoProcessor.setup_output_dirs,
    VideoProcessor.generate_segment_filename, path_join,
    strftime_date, strftime_dashed.
  intros H.
  rewrite !append_assoc in H.
  do 4 apply append_inj_l in H.
  apply pad4_append_inj in H as [Hy H]. apply append_inj_l in H.
  apply pad2_append_inj in H as [Hm H]. apply append_inj_l in H.
  apply pad2_append_inj in H as [Hd H]. do 2 apply append_inj_l in H.
  apply pad2_append_inj in H as [Hh H]. apply append_inj_l in H.
  apply pad2_append_inj in H as [Hmi H]. apply append_inj_l in H.
  apply pad2_append_inj in H as [Hs _].
  apply pad4_inj in Hy; [|lia..]. apply pad2_inj in Hm, Hd, Hh, Hmi, Hs; [|lia..].
  by split.
Qed.

(** The path depends on the date of the first reading and on the time
    of day of the second, and on nothing else. *)
Lemma segment_path_same d1 n1 d2 n2 :
  same_date d1 d2 → same_time_of_day n1 n2 →
  segment_path d1 n1 = segment_path d2 n2.
Proof.
  intros (Hy & Hm & Hd) (Hh & Hmi & Hs).
  unfold segment_path, VideoProcessor.setup_output_dirs,
    VideoProcessor.generate_segment_filename, strftime_date, strftime_dashed.
  by rewrite Hy, Hm, Hd, Hh, Hmi, Hs.
Qed.

(** ** Rendering *)

Lemma sorted_permutation (l1 l2 : list string) :
  l1 ≡ₚ l2 → sorted l1 = sorted l2.
Proof.
  intros Hp. unfold sorted.
  apply (Sorted_unique String.le); [apply Sorted_merge_sort; apply _..|].
  by rewrite !merge_sort_Permutation.
Qed.

(** The camera and file routines write the same string whatever the
    iteration order of the set. *)
Lemma sorted_rendering_ignores_iteration (h : Handler)
    (iter : gset string → list string) (s : gset string) :
  iteration_order iter → h ≠ Url →
  render_violation h iter s = join (sorted (elements s)).
Proof.
  intros Hiter Hh. destruct h; [| |done]; simpl; f_equal;
    apply sorted_permutation, Hiter.
Qed.

Section EndOfStream.
Context {Box : Type}.
Implicit Types (st : @LoopState Box) (f : @Frame Box) (h : Handler)
  (cfg : Config) (env : Env).

Lemma face_analysis_length env cfg (log : list LedgerEntry) :
  length (face_analysis env cfg log).1 = length log.
Proof.
  unfold face_analysis. destruct log as [|e log]; [done|].
  destruct (database_available env).
  - rewrite attribute_with_database_eq. apply resolve_from_length.
  - simpl. by rewrite length_fmap.
Qed.

(** What follows the loop never appends to the log, in any of the three
    routines: a segment still open when the stream ends gets no entry. *)
Lemma finish_appends_nothing env cfg st :
  length (s_violations_log (finish env cfg (Finished st))) =
  length (violations_log st).
Proof. simpl. apply face_analysis_length. Qed.

(** Its writer is released. *)
Lemma finish_releases_open_writer env cfg st (p : string) :
  recording st = true →
  VideoProcessor.writer (video_processor st) = Some p →
  VideoProcessor.writer (s_video_processor (finish env cfg (Finished st)))
    = None ∧
  VideoProcessor.released (s_video_processor (finish env cfg (Finished st)))
    = VideoProcessor.released (video_processor st) ++ [p].
Proof.
  intros Hr Hw. simpl. rewrite Hr.
  unfold VideoProcessor.stop_recording. by rewrite Hw.
Qed.

Lemma process_frame_path h cfg env st f :
  current_segment_path (process_frame h cfg env st f) =
  if set_truthy (frame_confirmed cfg st f) && negb (recording st)
  then Some (segment_path (f_now f) (f_now_file f)) else current_segment_path st.
Proof.
  rewrite process_frame_eq.
  destruct (close_due _ _ _); simpl; apply before_close_path.
Qed.

(** C7, amended.  A segment opens on the path made of the date the clock
    shows when [setup_output_dirs] reads it and of the time of day, to
    the second, it shows when [generate_segment_filename] reads it; two
    opens have the same path exactly when these dates are the same and
    these times of day are the same. *)
Theorem segment_paths_differ_iff_clock_seconds_differ h cfg env
    st1 f1 st2 f2 :
  recording st1 = false → recording st2 = false →
  frame_confirmed cfg st1 f1 ≠ ∅ → frame_confirmed cfg st2 f2 ≠ ∅ →
  valid_datetime (f_now f1) → valid_datetime (f_now_file f1) →
  valid_datetime (f_now f2) → valid_datetime (f_now_file f2) →
  current_segment_path (process_frame h cfg env st1 f1) =
    Some (segment_path (f_now f1) (f_now_file f1)) ∧
  current_segment_path (process_frame h cfg env st2 f2) =
    Some (segment_path (f_now f2) (f_now_file f2)) ∧
  (current_segment_path (process_frame h cfg env st1 f1) =
     current_segment_path (process_frame h cfg env st2 f2) ↔
   same_date (f_now f1) (f_now f2) ∧
   same_time_of_day (f_now_file f1) (f_now_file f2)).
Proof.
  intros Hr1 Hr2 Hc1 Hc2 Hd1 Hn1 Hd2 Hn2.
  apply set_truthy_true in Hc1, Hc2.
  rewrite !process_frame_path, Hr1, Hr2, Hc1, Hc2. simpl.
  split_and!; [done|done|].
  split.
  - intros Hpath. apply (inj Some) in Hpath.
    by apply segment_path_inj in Hpath.
  - intros [Hdate Htime]. f_equal. by apply segment_path_same.
Qed.
End EndOfStream.

(** C1 (evaluated on the file routine).  The claim: a stream that ends
    while a segment is recording leaves exactly one ledger entry for it.
    On a one-frame video that shows a phone the loop ends with the
    segment open; the routine releases the writer of the segment and the
    log stays empty. *)
Theorem stream_end_while_recording_logs_nothing :
  let frames := [Sample.frame 5 40 ["phone"]] in
  let st := run_frames File (Sample.cfg 10) Sample.env Sample.start frames in
  let after :=
    process_video_file (Sample.cfg 10) Sample.env true frames Sample.session in
  frame_loop File (Sample.cfg 10) Sample.env false Sample.start frames
    = Finished st ∧
  recording st = true ∧
  current_segment_path st = Some Sample.the_path ∧
  s_violations_log after = [] ∧
  VideoProcessor.writer (s_video_processor after) = None ∧
  VideoProcessor.released (s_video_processor after) = [Sample.the_path].
Proof. vm_compute. repeat split. Qed.

Lemma reverse_elements_is_iteration_order :
  iteration_order (set_iter Sample.env_reversed).
Proof. intros s. simpl. apply reverse_Permutation. Qed.

(** C6 (evaluated on the network routine).  The claim: every routine
    writes the classes sorted.  The network routine joins the set in
    its iteration order: the same two classes give two different
    strings under two iteration orders, one of them unsorted, where the
    file routine gives the sorted string. *)
Theorem url_violation_string_follows_iteration_order :
  let frames :=
    [Sample.frame 5 40 ["phone"; "bottle"]; Sample.frame 16 51 []] in
  iteration_order (set_iter Sample.env) ∧
  iteration_order (set_iter Sample.env_reversed) ∧
  violation <$> violations_log
    (run_frames Url (Sample.cfg 10) Sample.env Sample.start frames)
    = ["bottle, phone"] ∧
  violation <$> violations_log
    (run_frames Url (Sample.cfg 10) Sample.env_reversed Sample.start frames)
    = ["phone, bottle"] ∧
  violation <$> violations_log
    (run_frames File (Sample.cfg 10) Sample.env_reversed Sample.start frames)
    = ["bottle, phone"].
Proof.
  split; [by intros s|]. split; [apply reverse_elements_is_iteration_order|].
  vm_compute. repeat split.
Qed.

(** C2 as stated fails: with the last confirmation at 5 and a buffer of
    10, the frame at time 15 leaves the segment open and the log empty;
    the entry is written by the frame at time 16. *)
Lemma segment_still_open_at_buffer_instant :
  let opened := [Sample.frame 5 40 ["phone"]; Sample.frame 15 50 []] in
  let st := run_frames File (Sample.cfg 10) Sample.env Sample.start opened in
  last_detection_time st = Some 5%Q ∧
  (f_time (Sample.frame 15 50 []) == 5 + buffer_seconds (Sample.cfg 10))%Q ∧
  recording st = true ∧
  violations_log st = [] ∧
  time <$> violations_log
    (run_frames File (Sample.cfg 10) Sample.env Sample.start
       (opened ++ [Sample.frame 16 51 []])) = ["14:01:51"].
Proof. vm_compute. repeat split. Qed.

(** C7 as stated fails: with a buffer of a tenth of a second, two
    segments open and close within one clock second and both are
    written to, and logged under, the same path. *)
Lemma two_opens_in_one_second_share_a_path :
  let frames :=
    [Sample.frame 100 40 ["phone"]; Sample.frame 100.2 40 [];
     Sample.frame 100.4 40 ["phone"]; Sample.frame 100.6 40 []] in
  let st := run_frames File (Sample.cfg 0.1) Sample.env Sample.start frames in
  path <$> violations_log st = [Some Sample.the_path; Some Sample.the_path] ∧
  VideoProcessor.released (video_processor st)
    = [Sample.the_path; Sample.the_path].
Proof. vm_compute. repeat split. Qed.

Lemma segment_closes_at_first_frame_past_buffer_witness :
  let opened :=
    process_frame File (Sample.cfg 10) Sample.env Sample.start
      (Sample.frame 5 40 ["phone"]) in
  let waiting :=
    run_frames File (Sample.cfg 10) Sample.env opened
      [Sample.frame 15 50 []] in
  recording opened = true ∧
  (∀ k, recording (run_frames File (Sample.cfg 10) Sample.env opened
                     (take k [Sample.frame 15 50 []])) = true ∧
        violations_log (run_frames File (Sample.cfg 10) Sample.env opened
                     (take k [Sample.frame 15 50 []])) =
          violations_log Sample.start) ∧
  recording (process_frame File (Sample.cfg 10) Sample.env waiting
               (Sample.frame 16 51 [])) = false ∧
  violations_log (process_frame File (Sample.cfg 10) Sample.env waiting
               (Sample.frame 16 51 [])) =
    violations_log Sample.start ++
    [closing_entry File Sample.env opened (Sample.frame 16 51 [])].
Proof.
  apply (segment_closes_at_first_frame_past_buffer File (Sample.cfg 10)
           Sample.env Sample.start (Sample.frame 5 40 ["phone"])
           [Sample.frame 15 50 []] (Sample.frame 16 51 [])).
  - apply set_truthy_true. vm_compute. reflexivity.
  - simpl. lra.
  - simpl. lra.
  - vm_compute. repeat split.
  - repeat constructor. simpl. lra.
  - simpl. lra.
Defined.

Lemma sleeping_confirmed_at_first_elapsed_frame_witness :
  (∃ ci, confirm_run 10 None
           [(0%Q, Sample.shows ["sleeping"]); (5%Q, Sample.shows ["sleeping"]);
            (10%Q, Sample.shows ["sleeping"])] !! 2%nat = Some ci ∧
         "sleeping" ∈ ci) ∧
  (∀ j cj, (j < 2)%nat →
     confirm_run 10 None
       [(0%Q, Sample.shows ["sleeping"]); (5%Q, Sample.shows ["sleeping"]);
        (10%Q, Sample.shows ["sleeping"])] !! j = Some cj →
     "sleeping" ∉ cj).
Proof.
  apply (sleeping_confirmed_at_first_elapsed_frame 10 None 0
           (Sample.shows ["sleeping"])
           [(5%Q, Sample.shows ["sleeping"]); (10%Q, Sample.shows ["sleeping"])]
           2 10 (Sample.shows ["sleeping"])).
  - repeat constructor; simpl; by eexists.
  - reflexivity.
  - simpl. lra.
  - intros j tj dj Hj Hlook.
    destruct j as [|[|j]]; [| |lia]; simpl in Hlook;
      injection Hlook as <- _; simpl; lra.
Defined.

Lemma gap_restarts_sleep_debounce_witness :
  timer_after 10 None
    ([(0%Q, Sample.shows ["sleeping"])] ++ [(5%Q, Sample.shows ["phone"])])
    = None ∧
  ∀ j tj dj cj,
    [(6%Q, Sample.shows ["sleeping"]); (16%Q, Sample.shows ["sleeping"])] !! j
      = Some (tj, dj) →
    confirm_run 10 None
      ([(0%Q, Sample.shows ["sleeping"])] ++
       (5%Q, Sample.shows ["phone"])
       :: [(6%Q, Sample.shows ["sleeping"]); (16%Q, Sample.shows ["sleeping"])])
      !! (length [(0%Q, Sample.shows ["sleeping"])] + 1 + j)%nat = Some cj →
    "sleeping" ∈ cj →
    ∃ k tk dk, (k ≤ j)%nat ∧
      [(6%Q, Sample.shows ["sleeping"]); (16%Q, Sample.shows ["sleeping"])] !! k
        = Some (tk, dk) ∧
      sleeping_throughout
        [(6%Q, Sample.shows ["sleeping"]); (16%Q, Sample.shows ["sleeping"])]
        k j ∧
      (10 <= tj - tk)%Q.
Proof.
  apply (gap_restarts_sleep_debounce 10 None
           [(0%Q, Sample.shows ["sleeping"])]
           [(6%Q, Sample.shows ["sleeping"]); (16%Q, Sample.shows ["sleeping"])]
           5 (Sample.shows ["phone"])).
  reflexivity.
Defined.

Lemma segment_paths_differ_iff_clock_seconds_differ_witness :
  current_segment_path
    (process_frame File (Sample.cfg 10) Sample.env Sample.start
       (Sample.frame 5 40 ["phone"])) =
    Some (segment_path (Sample.at_second 40) (Sample.at_second 40)) ∧
  current_segment_path
    (process_frame File (Sample.cfg 10) Sample.env Sample.start
       (Demo.midnight_frame 50 ["phone"])) =
    Some (segment_path Demo.last_second_of_2025 Demo.first_second_of_2026) ∧
  (current_segment_path
     (process_frame File (Sample.cfg 10) Sample.env Sample.start
        (Sample.frame 5 40 ["phone"])) =
   current_segment_path
     (process_frame File (Sample.cfg 10) Sample.env Sample.start
        (Demo.midnight_frame 50 ["phone"])) ↔
   same_date (Sample.at_second 40) Demo.last_second_of_2025 ∧
   same_time_of_day (Sample.at_second 40) Demo.first_second_of_2026).
Proof.
  apply (segment_paths_differ_iff_clock_seconds_differ File (Sample.cfg 10)
           Sample.env Sample.start (Sample.frame 5 40 ["phone"])
           Sample.start (Demo.midnight_frame 50 ["phone"])).
  - reflexivity.
  - reflexivity.
  - apply set_truthy_true. vm_compute. reflexivity.
  - apply set_truthy_true. vm_compute. reflexivity.
  - unfold valid_datetime. simpl. lia.
  - unfold valid_datetime. simpl. lia.
  - unfold valid_datetime. simpl. lia.
  - unfold valid_datetime. simpl. lia.
Defined.

(** An open whose two clock readings straddle midnight is written into
    the directory of the old day under the time of the new one: the path
    of an open at the first second of the old day. *)
Lemma open_across_midnight_reuses_a_path_of_the_old_day :
  current_segment_path
    (process_frame File (Sample.cfg 10) Sample.env Sample.start
       (Demo.midnight_frame 50 ["phone"])) =
    Some "monitor_output/segments/2025-12-31/seg_00-00-00.mp4" ∧
  segment_path Demo.first_second_of_last_day Demo.first_second_of_last_day =
    "monitor_output/segments/2025-12-31/seg_00-00-00.mp4".
Proof. vm_compute. split; reflexivity. Qed.

Lemma matcher_failure_touches_only_its_entry_witness :
  let log :=
    [Sample.pending_entry "a.mp4"; Sample.pending_entry "b.mp4";
     Sample.pending_entry "c.mp4"] in
  (face_analysis Sample.env_matching (Sample.cfg 10) log).1 !! 1%nat =
    Some (analysis_error_entry (Sample.pending_entry "b.mp4")) ∧
  length (face_analysis Sample.env_matching (Sample.cfg 10) log).1 =
    length log ∧
  (∀ j ej, j ≠ 1%nat → log !! j = Some ej →
     (face_analysis Sample.env_matching (Sample.cfg 10) log).1 !! j =
     Some (if is_pending ej
           then resolve_entry Sample.env_matching (Sample.cfg 10)
                  (call_number log j) ej
           else ej)) ∧
  (face_analysis Sample.env_matching (Sample.cfg 10) log).2 =
    pending_paths log.
Proof.
  apply (matcher_failure_touches_only_its_entry Sample.env_matching
           (Sample.cfg 10)
           [Sample.pending_entry "a.mp4"; Sample.pending_entry "b.mp4";
            Sample.pending_entry "c.mp4"]
           1 (Sample.pending_entry "b.mp4")).
  - reflexivity.
  - reflexivity.
  - vm_compute. reflexivity.
  - vm_compute. reflexivity.
Defined.

Lemma no_database_closes_every_pending_entry_witness :
  let log := [Sample.pending_entry "a.mp4"; Sample.pending_entry "b.mp4"] in
  (face_analysis Sample.env (Sample.cfg 10) log).2 = [] ∧
  (face_analysis Sample.env (Sample.cfg 10) log).1 = mark_no_database <$> log ∧
  Forall (λ e, is_pending e = false)
    (face_analysis Sample.env (Sample.cfg 10) log).1 ∧
  (∀ k e, log !! k = Some e → is_pending e = true →
     (face_analysis Sample.env (Sample.cfg 10) log).1 !! k =
     Some {| path := path e; time := time e; violation := violation e;
             student := NOT_RECOGNISED; confidence := NO_DATABASE |}).
Proof.
  apply (no_database_closes_every_pending_entry Sample.env (Sample.cfg 10)
           [Sample.pending_entry "a.mp4"; Sample.pending_entry "b.mp4"]).
  reflexivity.
Defined.

(** * Further properties *)

Section FilterMore.
Context {Box : Type}.
Implicit Types (d : gmap string (list Box)) (s : option Q) (t buf : Q).

(** X1.  The confirmed set of a call is exactly the detected classes other
    than sleeping, together with sleeping when it is detected and its
    timer has run for [sleep_buffer]: every other class is confirmed in
    the frame that shows it. *)
Theorem confirmed_set_exact t d s buf :
  confirmed_of t d s buf =
  (dom d ∖ {["sleeping"]}) ∪
  (if sleep_elapsed t d s buf then {["sleeping"]} else ∅).
Proof.
  apply set_eq. intros x. rewrite confirmed_of_elem.
  destruct (sleep_elapsed t d s buf); set_solver.
Qed.

(** X2.  The filter returns a detection time exactly when it confirms
    something, and that time is the current time; with nothing confirmed
    it returns [None]. *)
Theorem detection_time_follows_confirmation t d s buf :
  (detection_time_of t d s buf = None ↔ confirmed_of t d s buf = ∅) ∧
  (detection_time_of t d s buf = Some t ↔ confirmed_of t d s buf ≠ ∅).
Proof.
  rewrite detection_time_of_eq. case_decide; naive_solver.
Qed.

Lemma timer_after_buffer_free buf buf' s
    (frames : list (Q * gmap string (list Box))) :
  timer_after buf s frames = timer_after buf' s frames.
Proof.
  revert s. induction frames as [|[t d] frames IH]; intros s; [done|].
  unfold timer_after in *. simpl. rewrite !sleep_start_of_eq. apply IH.
Qed.

(** X3.  After a run of sampled frames the sleep timer is [None] exactly when
    the last frame does not show sleeping, and its value does not depend
    on the debounce in force. *)
Theorem timer_runs_iff_last_frame_sleeps buf buf' s
    (frames : list (Q * gmap string (list Box))) t d :
  (timer_after buf s (frames ++ [(t, d)]) = None ↔ d !! "sleeping" = None) ∧
  timer_after buf s (frames ++ [(t, d)]) =
    timer_after buf' s (frames ++ [(t, d)]).
Proof.
  split; [|apply timer_after_buffer_free].
  rewrite timer_after_snoc, sleep_start_of_eq.
  case_bool_decide as Hd.
  - destruct Hd as [x Hx]. rewrite Hx. naive_solver.
  - rewrite <- eq_None_not_Some in Hd. naive_solver.
Qed.
End FilterMore.

Section RecorderMore.
Context {Box : Type}.
Implicit Types (st : @LoopState Box) (f g : @Frame Box) (h : Handler)
  (cfg : Config) (env : Env).

Lemma before_close_video_processor h cfg st f :
  video_processor (before_close h cfg st f) =
  if set_truthy (frame_confirmed cfg st f) && negb (recording st)
  then VideoProcessor.start_recording (segment_path (f_now f) (f_now_file f))
         (video_processor st)
  else video_processor st.
Proof.
  rewrite before_close_eq, detect_stage_eq. simpl.
  by destruct (set_truthy _), (recording st).
Qed.

Lemma before_close_sleep_start h cfg st f :
  sleep_start_time (before_close h cfg st f) =
  if sampled cfg (frame_count st + 1)
  then sleep_start_of (f_time f) (f_detections f) (sleep_start_time st)
         (sleep_buffer cfg)
  else sleep_start_time st.
Proof.
  rewrite before_close_eq, detect_stage_eq. simpl.
  by destruct (set_truthy _), (recording st).
Qed.

Lemma before_close_frame_count h cfg st f :
  frame_count (before_close h cfg st f) = frame_count st + 1.
Proof.
  rewrite before_close_eq, detect_stage_eq. simpl.
  by destruct (set_truthy _), (recording st).
Qed.

Lemma process_frame_frame_count h cfg env st f :
  frame_count (process_frame h cfg env st f) = frame_count st + 1.
Proof.
  rewrite process_frame_eq.
  destruct (close_due _ _ _); simpl; apply before_close_frame_count.
Qed.

Lemma process_frame_sleep_start h cfg env st f :
  sleep_start_time (process_frame h cfg env st f) =
  if sampled cfg (frame_count st + 1)
  then sleep_start_of (f_time f) (f_detections f) (sleep_start_time st)
         (sleep_buffer cfg)
  else sleep_start_time st.
Proof.
  rewrite process_frame_eq.
  destruct (close_due _ _ _); simpl; apply before_close_sleep_start.
Qed.

(** An idle recorder that meets a frame without confirmation stays as
    it is. *)
Lemma idle_step h cfg env st f :
  recording st = false →
  frame_confirmed cfg st f = ∅ →
  recording (process_frame h cfg env st f) = false ∧
  violations_log (process_frame h cfg env st f) = violations_log st ∧
  video_processor (process_frame h cfg env st f) = video_processor st ∧
  current_segment_path (process_frame h cfg env st f) =
    current_segment_path st ∧
  rec_violations (process_frame h cfg env st f) = rec_violations st.
Proof.
  intros Hr Hc. apply set_truthy_false in Hc.
  assert (close_due cfg (before_close h cfg st f) f = false) as Hdue.
  { unfold close_due. by rewrite before_close_recording, Hr, Hc. }
  rewrite process_frame_eq, Hdue.
  rewrite before_close_recording, before_close_log,
    before_close_video_processor, before_close_path,
    before_close_rec_violations, Hr, Hc. done.
Qed.

Lemma idle_run h cfg env st (frames : list Frame) :
  recording st = false →
  quiet_frames h cfg env st frames →
  recording (run_frames h cfg env st frames) = false ∧
  violations_log (run_frames h cfg env st frames) = violations_log st ∧
  video_processor (run_frames h cfg env st frames) = video_processor st.
Proof.
  revert st. induction frames as [|f frames IH]; intros st Hr Hq; [done|].
  destruct Hq as [Hc Hq].
  destruct (idle_step h cfg env st f Hr Hc) as (Hr' & Hlog & Hvp & _).
  destruct (IH _ Hr' Hq) as (? & ? & ?).
  unfold run_frames in *. simpl. split_and!; congruence.
Qed.

(** X5.  While no frame confirms anything an idle recorder stays idle: no
    segment is opened, nothing is logged and the video processor is not
    touched. *)
Theorem no_segment_without_confirmation h cfg env st (frames : list Frame) :
  recording st = false →
  quiet_frames h cfg env st frames →
  recording (run_frames h cfg env st frames) = false ∧
  violations_log (run_frames h cfg env st frames) = violations_log st ∧
  video_processor (run_frames h cfg env st frames) = video_processor st.
Proof. apply idle_run. Qed.

(** X4.  A frame that is not sampled leaves the sleep timer, the last
    detection time, the accumulated classes and the segment path as they
    were, and never opens a segment. *)
Theorem unsampled_frame_leaves_filter_alone h cfg env st f :
  sampled cfg (frame_count st + 1) = false →
  sleep_start_time (process_frame h cfg env st f) = sleep_start_time st ∧
  last_detection_time (process_frame h cfg env st f) =
    last_detection_time st ∧
  rec_violations (process_frame h cfg env st f) = rec_violations st ∧
  current_segment_path (process_frame h cfg env st f) =
    current_segment_path st ∧
  (recording (process_frame h cfg env st f) = true → recording st = true).
Proof.
  intros Hs.
  pose proof (frame_confirmed_unsampled cfg st f Hs) as Hc.
  assert (set_truthy (frame_confirmed cfg st f) = false) as Hq
    by (by apply set_truthy_false).
  rewrite process_frame_sleep_start, Hs.
  rewrite process_frame_path, Hq. simpl.
  rewrite process_frame_eq.
  destruct (close_due _ _ _); simpl;
    rewrite ?before_close_last_detection, ?before_close_rec_violations,
      ?before_close_recording, Hq, Hc;
    destruct (recording st); split_and!; try done; set_solver.
Qed.

(** *** The writer follows the local flag *)

Lemma writer_consistent_init (log : list LedgerEntry) vp :
  writer_closed vp → writer_consistent (@init_state Box log vp).
Proof. intros [Hw Hr]. unfold writer_consistent. simpl. done. Qed.

Lemma writer_consistent_before_close h cfg st f :
  writer_consistent st → writer_consistent (before_close h cfg st f).
Proof.
  intros (Hflag & Hw & Hp). unfold writer_consistent.
  rewrite before_close_video_processor, before_close_recording,
    before_close_path.
  destruct (recording st) eqn:Hr, (set_truthy _); simpl in *;
    rewrite ?Hflag, ?Hw; split_and!; try done; auto; try (by eexists).
Qed.

Lemma writer_consistent_step h cfg env st f :
  writer_consistent st → writer_consistent (process_frame h cfg env st f).
Proof.
  intros Hst.
  destruct (writer_consistent_before_close h cfg st f Hst)
    as (Hflag' & Hw' & Hp').
  rewrite process_frame_eq. destruct (close_due _ _ _); [|done].
  unfold writer_consistent. simpl.
  unfold VideoProcessor.stop_recording.
  destruct (VideoProcessor.writer _) eqn:Hwr; simpl; [done|].
  destruct (recording (before_close h cfg st f)) eqn:Hr; [|done].
  destruct (Hp' eq_refl) as [p Hpath]. congruence.
Qed.

Lemma writer_consistent_run h cfg env st (frames : list Frame) :
  writer_consistent st →
  writer_consistent (run_frames h cfg env st frames).
Proof.
  revert st. induction frames as [|f frames IH]; intros st Hst; [done|].
  apply (IH (process_frame h cfg env st f)).
  by apply writer_consistent_step.
Qed.

(** X6.  Started with no writer open, a loop keeps the video processor in
    step with its local flag after every frame: the processor records
    exactly when the flag is set, its writer is then the current segment
    path, and it has no writer otherwise. *)
Theorem writer_follows_recording_flag h cfg env (log : list LedgerEntry) vp
    (frames : list (@Frame Box)) :
  writer_closed vp →
  writer_consistent (run_frames h cfg env (init_state log vp) frames).
Proof.
  intros Hvp. by apply writer_consistent_run, writer_consistent_init.
Qed.

(** *** The ledger during the loop *)

Lemma ledger_step h cfg env st f :
  violations_log (process_frame h cfg env st f) = violations_log st ∨
  (recording (process_frame h cfg env st f) = false ∧
   violations_log (process_frame h cfg env st f) =
     violations_log st ++ [closing_entry h env (before_close h cfg st f) f] ∧
   video_processor (process_frame h cfg env st f) =
     VideoProcessor.stop_recording (video_processor (before_close h cfg st f)) ∧
   recording (before_close h cfg st f) = true).
Proof.
  rewrite process_frame_eq. destruct (close_due _ _ _) eqn:Hdue; simpl.
  - right. rewrite before_close_log. split_and!; try done.
    unfold close_due in Hdue. by destruct (recording _).
  - left. apply before_close_log.
Qed.

Lemma ledger_grows h cfg env st (frames : list Frame) :
  ∃ new,
    violations_log (run_frames h cfg env st frames) = violations_log st ++ new ∧
    Forall (λ e, student e = PENDING ∧ confidence e = "N/A") new ∧
    (length new ≤ length frames)%nat.
Proof.
  revert st. induction frames as [|f frames IH]; intros st.
  - exists []. simpl. by rewrite app_nil_r.
  - destruct (IH (process_frame h cfg env st f)) as (new & Hlog & Hall & Hlen).
    unfold run_frames in *. simpl. rewrite Hlog.
    destruct (ledger_step h cfg env st f) as [->|(_ & -> & _)].
    + exists new. split_and!; [done|done|lia].
    + eexists (_ :: new). rewrite <- app_assoc. split_and!; [done| |simpl; lia].
      by constructor.
Qed.

(** X7.  A loop only appends to the log: the entries present stay where they
    are, each new entry is pending with confidence N/A, and there is at
    most one new entry per frame. *)
Theorem ledger_only_grows_by_pending_entries h cfg env st
    (frames : list Frame) :
  ∃ new,
    violations_log (run_frames h cfg env st frames) = violations_log st ++ new ∧
    Forall (λ e, student e = PENDING ∧ confidence e = "N/A") new ∧
    (length new ≤ length frames)%nat.
Proof. apply ledger_grows. Qed.

Lemma before_close_released h cfg st f :
  VideoProcessor.released (video_processor (before_close h cfg st f)) =
  VideoProcessor.released (video_processor st).
Proof.
  rewrite before_close_video_processor. by destruct (_ && _).
Qed.

Lemma released_step h cfg env st f :
  writer_consistent st →
  ∃ new,
    violations_log (process_frame h cfg env st f) = violations_log st ++ new ∧
    Some <$> VideoProcessor.released
               (video_processor (process_frame h cfg env st f))
      = (Some <$> VideoProcessor.released (video_processor st)) ++
        (path <$> new).
Proof.
  intros Hst.
  destruct (writer_consistent_before_close h cfg st f Hst) as (_ & Hw & Hsome).
  rewrite process_frame_eq. destruct (close_due _ _ _) eqn:Hdue; simpl.
  - assert (recording (before_close h cfg st f) = true) as Hr.
    { unfold close_due in Hdue. by destruct (recording _). }
    rewrite Hr in Hw. destruct (Hsome Hr) as [p Hp]. rewrite Hp in Hw.
    eexists [_]. rewrite before_close_log. split; [done|].
    unfold VideoProcessor.stop_recording. rewrite Hw. simpl.
    by rewrite fmap_app, before_close_released, Hp.
  - exists []. rewrite before_close_log, before_close_released.
    by rewrite !app_nil_r.
Qed.

Lemma released_run h cfg env st (frames : list Frame) :
  writer_consistent st →
  ∃ new,
    violations_log (run_frames h cfg env st frames) = violations_log st ++ new ∧
    Some <$> VideoProcessor.released
               (video_processor (run_frames h cfg env st frames))
      = (Some <$> VideoProcessor.released (video_processor st)) ++
        (path <$> new).
Proof.
  revert st. induction frames as [|f frames IH]; intros st Hst.
  - exists []. simpl. by rewrite !app_nil_r.
  - destruct (released_step h cfg env st f Hst) as (new1 & Hlog1 & Hrel1).
    destruct (IH _ (writer_consistent_step h cfg env st f Hst))
      as (new2 & Hlog2 & Hrel2).
    exists (new1 ++ new2). unfold run_frames in *. simpl.
    rewrite Hlog2, Hrel2, Hlog1, Hrel1, fmap_app, !app_assoc. done.
Qed.

(** X8.  Started with no writer open, the paths of the writers a loop
    releases are, in order, the paths of the entries it appends. *)
Theorem every_entry_has_its_released_writer h cfg env
    (log : list LedgerEntry) vp (frames : list (@Frame Box)) :
  writer_closed vp →
  ∃ new,
    violations_log (run_frames h cfg env (init_state log vp) frames)
      = log ++ new ∧
    Some <$> VideoProcessor.released
               (video_processor (run_frames h cfg env (init_state log vp) frames))
      = (Some <$> VideoProcessor.released vp) ++ (path <$> new).
Proof.
  intros Hvp.
  apply (released_run h cfg env (init_state log vp) frames).
  by apply writer_consistent_init.
Qed.
End RecorderMore.

Section BufferMore.
Context {Box : Type}.
Implicit Types (st : @LoopState Box) (f g : @Frame Box) (h : Handler)
  (cfg : Config) (env : Env).

(** X9.  A frame that confirms something at a non-zero time, with a
    non-negative buffer, ends with a segment open that holds the
    confirmed classes, with the last detection time set to the frame's
    time and nothing logged. *)
Theorem confirmation_rearms_segment h cfg env st f :
  frame_confirmed cfg st f ≠ ∅ →
  ¬ (f_time f == 0)%Q →
  (0 <= buffer_seconds cfg)%Q →
  recording (process_frame h cfg env st f) = true ∧
  last_detection_time (process_frame h cfg env st f) = Some (f_time f) ∧
  violations_log (process_frame h cfg env st f) = violations_log st ∧
  frame_confirmed cfg st f ⊆ rec_violations (process_frame h cfg env st f).
Proof.
  intros Hc Ht Hbuf.
  destruct (confirming_step h cfg env st f Hc Ht Hbuf) as (Hr & Hlast & Hlog).
  split_and!; try done.
  rewrite process_frame_eq in Hr |- *.
  destruct (close_due _ _ _); [done|].
  rewrite before_close_rec_violations.
  apply set_truthy_true in Hc. rewrite Hc.
  destruct (recording st); set_solver.
Qed.

(** A segment whose last detection time is missing or zero is not
    closed by a frame without confirmation. *)
Lemma untimed_step h cfg env st f :
  recording st = true →
  opt_truthy (last_detection_time st) = false →
  frame_confirmed cfg st f = ∅ →
  recording (process_frame h cfg env st f) = true ∧
  last_detection_time (process_frame h cfg env st f) = last_detection_time st ∧
  violations_log (process_frame h cfg env st f) = violations_log st.
Proof.
  intros Hr Hlast Hc. apply set_truthy_false in Hc.
  assert (close_due cfg (before_close h cfg st f) f = false) as Hdue.
  { unfold close_due.
    rewrite before_close_recording, before_close_last_detection, Hr, Hc.
    simpl. by rewrite Hlast. }
  rewrite process_frame_eq, Hdue.
  by rewrite before_close_recording, before_close_last_detection,
    before_close_log, Hr, Hc.
Qed.

(** X10.  A segment whose last detection time is missing or zero (the time
    test of the close condition is a truth test) is never closed by
    frames without confirmation, however late they come. *)
Theorem segment_without_detection_time_stays_open h cfg env st
    (frames : list Frame) :
  recording st = true →
  opt_truthy (last_detection_time st) = false →
  quiet_frames h cfg env st frames →
  recording (run_frames h cfg env st frames) = true ∧
  violations_log (run_frames h cfg env st frames) = violations_log st.
Proof.
  revert st. induction frames as [|f frames IH]; intros st Hr Hlast Hq; [done|].
  destruct Hq as [Hc Hq].
  destruct (untimed_step h cfg env st f Hr Hlast Hc) as (Hr' & Hlast' & Hlog').
  rewrite <- Hlast' in Hlast.
  destruct (IH _ Hr' Hlast Hq) as [? ?].
  unfold run_frames in *. simpl. split; congruence.
Qed.

(** *** Sleeping that has not lasted long enough *)

Lemma sampled_every_frame cfg n : frame_skip cfg = 1 → sampled cfg n = true.
Proof. intros Hs. unfold sampled. rewrite Hs, Z.mod_1_r. done. Qed.

Lemma only_sleeping_unconfirmed (d : gmap string (list Box)) t s buf :
  dom d = {["sleeping"]} →
  (t - default t s < buf)%Q →
  confirmed_of t d s buf = ∅.
Proof.
  intros Hd Hq. apply set_eq. intros x.
  rewrite confirmed_of_elem, sleep_elapsed_true, Hd.
  split; [|set_solver].
  intros [(_ & _ & Hle)|[Hne Hx]]; [lra|set_solver].
Qed.

Lemma quiet_while_sleeping_inside_debounce h cfg env st t0
    (frames : list Frame) :
  frame_skip cfg = 1 →
  Forall (λ f, dom (f_detections f) = {["sleeping"]} ∧
               (f_time f - t0 < sleep_buffer cfg)%Q) frames →
  sleep_start_time st = Some t0 ∨
  (sleep_start_time st = None ∧ head (f_time <$> frames) = Some t0) →
  quiet_frames h cfg env st frames.
Proof.
  intros Hskip. revert st.
  induction frames as [|f frames IH]; intros st Hall Htimer; [done|].
  apply Forall_cons in Hall as [[Hd Hq] Hall].
  assert (default (f_time f) (sleep_start_time st) = t0) as Hstart.
  { destruct Htimer as [->|[-> Hhead]]; [done|]. simpl in *. congruence. }
  simpl. split.
  - unfold frame_confirmed. rewrite sampled_every_frame by done.
    apply only_sleeping_unconfirmed; [done|]. by rewrite Hstart.
  - apply IH; [done|]. left.
    rewrite process_frame_sleep_start, sampled_every_frame by done.
    rewrite sleep_start_of_eq, bool_decide_eq_true_2, Hstart; [done|].
    apply elem_of_dom. rewrite Hd. set_solver.
Qed.

(** X11.  With every frame sampled, frames that show sleeping only and all
    come less than [sleep_buffer] after the first leave the recorder
    idle and the log untouched, while the timer holds the time of the
    first frame. *)
Theorem sleeping_inside_debounce_records_nothing h cfg env st
    (f0 : Frame) (rest : list Frame) :
  frame_skip cfg = 1 →
  recording st = false →
  sleep_start_time st = None →
  Forall (λ f, dom (f_detections f) = {["sleeping"]} ∧
               (f_time f - f_time f0 < sleep_buffer cfg)%Q) (f0 :: rest) →
  recording (run_frames h cfg env st (f0 :: rest)) = false ∧
  violations_log (run_frames h cfg env st (f0 :: rest)) = violations_log st ∧
  video_processor (run_frames h cfg env st (f0 :: rest)) = video_processor st ∧
  sleep_start_time (run_frames h cfg env st (f0 :: rest)) = Some (f_time f0).
Proof.
  intros Hskip Hr Htimer Hall.
  assert (quiet_frames h cfg env st (f0 :: rest)) as Hq.
  { apply (quiet_while_sleeping_inside_debounce h cfg env st (f_time f0));
      [done|done|]. right. done. }
  destruct (idle_run h cfg env st _ Hr Hq)
    as (? & ? & ?).
  split_and!; try done.
  clear -Hskip Htimer Hall.
  assert (∀ (frames : list Frame) st',
            sleep_start_time st' = Some (f_time f0) →
            Forall (λ f, dom (f_detections f) = {["sleeping"]} ∧
                         (f_time f - f_time f0 < sleep_buffer cfg)%Q) frames →
            sleep_start_time (run_frames h cfg env st' frames)
              = Some (f_time f0)) as Hkeep.
  { induction frames as [|f frames IH]; intros st' Hs Hfs; [done|].
    apply Forall_cons in Hfs as [[Hd _] Hfs].
    unfold run_frames in *. simpl. apply IH; [|done].
    rewrite process_frame_sleep_start, sampled_every_frame by done.
    rewrite sleep_start_of_eq, bool_decide_eq_true_2, Hs; [done|].
    apply elem_of_dom. rewrite Hd. set_solver. }
  apply Forall_cons in Hall as [[Hd _] Hall].
  unfold run_frames. simpl. apply Hkeep; [|done].
  rewrite process_frame_sleep_start, sampled_every_frame by done.
  rewrite sleep_start_of_eq, bool_decide_eq_true_2, Htimer; [done|].
  apply elem_of_dom. rewrite Hd. set_solver.
Qed.
End BufferMore.

(** ** More on face analysis *)

Section AttributionMore.
Implicit Types (env : Env) (cfg : Config) (log : list LedgerEntry)
  (e : LedgerEntry).

Lemma face_analysis_eq env cfg log :
  face_analysis env cfg log =
  if database_available env
  then (resolve_from env cfg 0 log, pending_paths log)
  else (mark_no_database <$> log, []).
Proof.
  unfold face_analysis. destruct log as [|e log].
  - by destruct (database_available env).
  - destruct (database_available env); [|done].
    apply attribute_with_database_eq.
Qed.

Lemma resolve_entry_record env cfg idx e :
  segment_record (resolve_entry env cfg idx e) = segment_record e.
Proof. unfold resolve_entry. by destruct (analyze_video_segment _ _ _ _). Qed.

Lemma mark_no_database_record e :
  segment_record (mark_no_database e) = segment_record e.
Proof. unfold mark_no_database. by destruct (is_pending e). Qed.

Lemma face_analysis_lookup env cfg log k e :
  log !! k = Some e →
  ∃ e', (face_analysis env cfg log).1 !! k = Some e' ∧
        segment_record e' = segment_record e ∧
        (is_pending e = false → e' = e).
Proof.
  intros Hk. rewrite face_analysis_eq.
  destruct (database_available env); simpl.
  - rewrite (resolve_from_lookup _ _ _ _ _ _ Hk).
    eexists. split; [done|].
    destruct (is_pending e); [|done].
    split; [apply resolve_entry_record|done].
  - rewrite list_lookup_fmap, Hk. simpl. eexists. split; [done|].
    split; [apply mark_no_database_record|].
    unfold mark_no_database. by intros ->.
Qed.

(** X17.  Face analysis keeps the path, time and violation of every entry,
    and does not change an entry that is not pending. *)
Theorem face_analysis_keeps_segment_records env cfg log k e :
  log !! k = Some e →
  ∃ e', (face_analysis env cfg log).1 !! k = Some e' ∧
        path e' = path e ∧ time e' = time e ∧ violation e' = violation e ∧
        (is_pending e = false → e' = e).
Proof.
  intros Hk. destruct (face_analysis_lookup env cfg log k e Hk)
    as (e' & Hk' & Hrec & Hsame).
  exists e'. unfold segment_record in Hrec. injection Hrec as ? ? ?. done.
Qed.

Lemma face_analysis_records env cfg log :
  segment_record <$> (face_analysis env cfg log).1 = segment_record <$> log.
Proof.
  apply list_eq. intros k. rewrite !list_lookup_fmap.
  destruct (log !! k) as [e|] eqn:Hk; simpl.
  - destruct (face_analysis_lookup env cfg log k e Hk) as (e' & Hk' & Hrec & _).
    rewrite Hk'. simpl. by rewrite Hrec.
  - apply lookup_ge_None in Hk.
    rewrite (proj2 (lookup_ge_None _ _)); [done|].
    by rewrite face_analysis_length.
Qed.

Lemma filter_pending_nil log :
  Forall (λ e, is_pending e = false) log →
  filter (λ e, is_pending e = true) log = [].
Proof.
  induction 1 as [|e log He _ IH]; [done|].
  rewrite filter_cons_False by (by rewrite He). done.
Qed.

Lemma resolve_from_settled env cfg n log :
  Forall (λ e, is_pending e = false) log → resolve_from env cfg n log = log.
Proof.
  induction 1 as [|e log He _ IH]; [done|]. simpl. by rewrite He, IH.
Qed.

(** X18.  On a log without pending entries face analysis changes nothing and
    makes no matcher call, with or without a database. *)
Theorem settled_ledger_is_left_alone env cfg log :
  Forall (λ e, is_pending e = false) log →
  face_analysis env cfg log = (log, []).
Proof.
  intros Hall. rewrite face_analysis_eq.
  destruct (database_available env).
  - rewrite resolve_from_settled by done.
    unfold pending_paths. by rewrite filter_pending_nil.
  - f_equal. apply list_eq. intros k. rewrite list_lookup_fmap.
    destruct (log !! k) as [e|] eqn:Hk; [|done]. simpl.
    unfold mark_no_database.
    by rewrite (proj1 (Forall_lookup _ _) Hall _ _ Hk).
Qed.

Lemma pending_from_spec log i k :
  k ∈ pending_from i log ↔
  ∃ e, (i ≤ k)%nat ∧ log !! (k - i)%nat = Some e ∧ is_pending e = true.
Proof.
  revert i. induction log as [|e1 log IH]; intros i; simpl.
  - split; [by intros ?%elem_of_nil|]. by intros (e & _ & ? & _).
  - assert (k ∈ pending_from (S i) log ↔
            ∃ e, (i ≤ k)%nat ∧ (e1 :: log) !! (k - i)%nat = Some e ∧
                 is_pending e = true ∧ k ≠ i) as Hrest.
    { rewrite IH. split.
      - intros (e & Hle & Hk & He). exists e.
        replace (k - i)%nat with (S (k - S i)) by lia. simpl.
        split_and!; [lia|done|done|lia].
      - intros (e & Hle & Hk & He & Hne). exists e.
        replace (k - i)%nat with (S (k - S i)) in Hk by lia.
        split_and!; [lia|done|done]. }
    destruct (is_pending e1) eqn:He1.
    + rewrite elem_of_cons, Hrest. split.
      * intros [->|(e & ? & ? & ? & _)]; [|by eauto].
        exists e1. rewrite Nat.sub_diag. done.
      * intros (e & Hle & Hk & He).
        destruct (decide (k = i)) as [->|Hne]; [by left|right]. by eauto 6.
    + rewrite Hrest. split.
      * intros (e & ? & ? & ? & _). by eauto.
      * intros (e & Hle & Hk & He). exists e. split_and!; try done.
        intros ->. rewrite Nat.sub_diag in Hk. simpl in Hk. congruence.
Qed.

(** X19.  With a database the matcher is handed the segments of the pending
    entries, once each and in ledger order; the indices the pass works
    through are exactly those of the pending entries. *)
Theorem matcher_called_once_per_pending_entry env cfg log :
  database_available env = true →
  (face_analysis env cfg log).2 = path <$> filter (λ e, is_pending e = true) log ∧
  length (face_analysis env cfg log).2 = length (violations_to_process log) ∧
  (∀ k, k ∈ violations_to_process log ↔
        ∃ e, log !! k = Some e ∧ is_pending e = true).
Proof.
  intros Hdb. rewrite face_analysis_eq, Hdb. simpl.
  split; [done|]. split.
  - unfold pending_paths, violations_to_process. rewrite length_fmap.
    generalize 0%nat. induction log as [|e log IH]; intros i; [done|]. simpl.
    destruct (is_pending e) eqn:He.
    + rewrite filter_cons_True by done. simpl. by rewrite (IH (S i)).
    + rewrite filter_cons_False by (by rewrite He). apply IH.
  - intros k. unfold violations_to_process. rewrite pending_from_spec.
    rewrite Nat.sub_0_r. split.
    + intros (e & _ & ? & ?). eauto.
    + intros (e & ? & ?). exists e. split_and!; [lia|done|done].
Qed.
End AttributionMore.

Section RoutinesMore.
Context {Box : Type}.
Implicit Types (st : @LoopState Box) (f g : @Frame Box) (h : Handler)
  (cfg : Config) (env : Env) (sess : Session).

Lemma run_frames_cons h cfg env st f (frames : list Frame) :
  run_frames h cfg env st (f :: frames) =
  run_frames h cfg env (process_frame h cfg env st f) frames.
Proof. done. Qed.

Lemma progress_is_quiet h env :
  (h = File → (0 < capture_frame_count env)%Q) →
  progress_raises h env = false.
Proof.
  intros Hcount. destruct h; [done| |done]. simpl.
  apply not_true_iff_false. rewrite Qle_bool_iff.
  specialize (Hcount eq_refl). by apply Qlt_not_le.
Qed.

Lemma frame_loop_capped h cfg env st (frames : list Frame) (cap : Z) (n : nat) :
  frame_skip cfg ≠ 0 →
  progress_raises h env = false →
  (∀ st', loop_guard h false st' = (frame_count st' <? cap)) →
  frame_count st = Z.of_nat n →
  frame_loop h cfg env false st frames =
  Finished (run_frames h cfg env st (take (Z.to_nat cap - n) frames)).
Proof.
  intros Hskip Hquiet Hguard. revert st n.
  induction frames as [|f frames IH]; intros st n Hn; simpl.
  - by rewrite take_nil.
  - rewrite Hguard, Hn, Hquiet.
    destruct (Z.ltb_spec (Z.of_nat n) cap) as [Hlt|Hge].
    + rewrite (proj2 (Z.eqb_neq _ _)) by done.
      rewrite (IH _ (S n)) by (rewrite process_frame_frame_count; lia).
      replace (Z.to_nat cap - n)%nat with (S (Z.to_nat cap - S n)) by lia.
      done.
    + replace (Z.to_nat cap - n)%nat with 0%nat by lia. done.
Qed.

Lemma frame_loop_file cfg env st (frames : list Frame) :
  frame_skip cfg ≠ 0 →
  progress_raises File env = false →
  frame_loop File cfg env false st frames =
  Finished (run_frames File cfg env st frames).
Proof.
  intros Hskip Hquiet. revert st.
  induction frames as [|f frames IH]; intros st; simpl; [done|].
  simpl in Hquiet. rewrite (proj2 (Z.eqb_neq _ _)), Hquiet by done. apply IH.
Qed.

(** X12.  With a non-zero frame skip, and for a file a capture that
    reports a positive number of frames, the loop ends normally after
    the frames [frames_processed] keeps: the first 9000 for the camera,
    the first 3000 for the network stream, all for a file. *)
Theorem frame_cap_bounds_the_run h cfg env (log : list LedgerEntry) vp
    (frames : list (@Frame Box)) :
  frame_skip cfg ≠ 0 →
  (h = File → (0 < capture_frame_count env)%Q) →
  frame_loop h cfg env false (init_state log vp) frames =
  Finished (run_frames h cfg env (init_state log vp)
              (frames_processed h frames)).
Proof.
  intros Hskip Hcount. apply progress_is_quiet in Hcount.
  destruct h; simpl.
  - rewrite (frame_loop_capped Webcam cfg env _ frames 9000 0); try done.
    intros st'. simpl. by rewrite andb_true_r.
  - by apply frame_loop_file.
  - rewrite (frame_loop_capped Url cfg env _ frames 3000 0); done.
Qed.

(** How a loop can end: on a zero sampling rate it stops where it
    started; otherwise it has run a prefix of the frames, and it has
    raised only if the progress does. *)
Lemma frame_loop_outcome h cfg env (stop : bool) st (frames : list Frame) :
  (frame_skip cfg = 0 →
   frame_loop h cfg env stop st frames = Finished st ∨
   frame_loop h cfg env stop st frames = Raised st) ∧
  (frame_skip cfg ≠ 0 →
   ∃ k, frame_loop h cfg env stop st frames =
          Finished (run_frames h cfg env st (take k frames)) ∨
        (progress_raises h env = true ∧
         frame_loop h cfg env stop st frames =
           Raised (run_frames h cfg env st (take k frames)))).
Proof.
  split.
  - intros Hskip. destruct frames as [|f frames]; simpl; [by left|].
    destruct (loop_guard h stop st); [|by left].
    rewrite Hskip. by right.
  - intros Hskip. revert st.
    induction frames as [|f frames IH]; intros st; simpl.
    + exists 0%nat. by left.
    + destruct (loop_guard h stop st); [|exists 0%nat; by left].
      rewrite (proj2 (Z.eqb_neq _ _)) by done.
      destruct (progress_raises h env) eqn:Hp.
      * exists 1%nat. right. split; [done|]. by destruct frames.
      * destruct (IH (process_frame h cfg env st f)) as [k [->|[? _]]];
          [|done].
        exists (S k). by left.
Qed.

Lemma frame_loop_finishes h cfg env (stop : bool) st (frames : list Frame) :
  frame_skip cfg ≠ 0 →
  progress_raises h env = false →
  ∃ k, frame_loop h cfg env stop st frames =
       Finished (run_frames h cfg env st (take k frames)).
Proof.
  intros Hskip Hquiet.
  destruct (proj2 (frame_loop_outcome h cfg env stop st frames) Hskip)
    as [k [Hk|[Hp _]]]; [by exists k|congruence].
Qed.

(** X13.  With a frame skip of zero, on a source that delivers a frame, a
    routine gives up at the first frame: the log and the video processor
    are as before, no face analysis runs, and the processing flag is
    cleared. *)
Theorem zero_frame_skip_aborts_the_run h cfg env sess f
    (frames : list Frame) :
  frame_skip cfg = 0 →
  process_stream h cfg env true false (f :: frames) sess =
  {| s_violations_log := s_violations_log sess;
     s_video_processor := s_video_processor sess;
     s_processing := false |}.
Proof.
  intros Hskip. unfold process_stream.
  assert (frame_loop h cfg env false
            (init_state (s_violations_log sess) (s_video_processor sess))
            (f :: frames)
          = Raised (init_state (s_violations_log sess)
                      (s_video_processor sess))) as Hloop.
  { simpl. rewrite Hskip. by destruct h. }
  destruct h; by rewrite Hloop.
Qed.

Lemma finish_writer_closed env cfg st :
  writer_consistent st →
  writer_closed (s_video_processor (finish env cfg (Finished st))).
Proof.
  intros (Hflag & Hw & Hp). unfold writer_closed. simpl.
  destruct (recording st) eqn:Hr.
  - unfold VideoProcessor.stop_recording. rewrite Hw.
    destruct (Hp eq_refl) as [p ->]. done.
  - by rewrite Hw, Hflag.
Qed.

(** X14.  A routine entered with no writer open returns with no writer
    open, provided that, for a file, the capture reports a positive
    number of frames: the loop then never raises after a segment has
    opened. *)
Theorem routine_leaves_no_writer_open h cfg env (opened stop : bool)
    (frames : list (@Frame Box)) sess :
  writer_closed (s_video_processor sess) →
  (h = File → (0 < capture_frame_count env)%Q) →
  writer_closed
    (s_video_processor (process_stream h cfg env opened stop frames sess)).
Proof.
  intros Hvp Hcount. apply progress_is_quiet in Hcount.
  pose proof (writer_consistent_init (Box := Box) (s_violations_log sess)
                _ Hvp) as Hinit.
  assert (writer_closed
            (s_video_processor
               (finish env cfg
                  (frame_loop h cfg env stop
                     (init_state (s_violations_log sess)
                        (s_video_processor sess)) frames)))) as Hloop.
  { destruct (decide (frame_skip cfg = 0)) as [Hs|Hs].
    - destruct (proj1 (frame_loop_outcome h cfg env stop
                  (init_state (s_violations_log sess) (s_video_processor sess))
                  frames) Hs) as [-> | ->]; [|done].
      by apply finish_writer_closed.
    - destruct (frame_loop_finishes h cfg env stop
                  (init_state (s_violations_log sess) (s_video_processor sess))
                  frames Hs Hcount) as [k ->].
      by apply finish_writer_closed, writer_consistent_run. }
  unfold process_stream. destruct h, opened; try done;
    by apply finish_writer_closed.
Qed.

(** X15.  With a non-zero frame skip, no face database and, for a file,
    a capture that reports a positive number of frames, a routine that
    reaches its loop returns a log without any pending entry. *)
Theorem routine_without_database_settles_the_ledger h cfg env
    (opened stop : bool) (frames : list (@Frame Box)) sess :
  frame_skip cfg ≠ 0 →
  database_available env = false →
  h = File ∨ opened = true →
  (h = File → (0 < capture_frame_count env)%Q) →
  Forall (λ e, is_pending e = false)
    (s_violations_log (process_stream h cfg env opened stop frames sess)).
Proof.
  intros Hskip Hdb Hopen Hcount. apply progress_is_quiet in Hcount.
  assert (∀ st, Forall (λ e, is_pending e = false)
                  (s_violations_log (finish env cfg (Finished st)))) as Hfin.
  { intros st. simpl. rewrite face_analysis_eq, Hdb. simpl.
    apply Forall_fmap, Forall_forall. intros e _.
    apply mark_no_database_not_pending. }
  destruct (frame_loop_finishes h cfg env stop
              (init_state (s_violations_log sess) (s_video_processor sess))
              frames Hskip Hcount) as [k Hloop].
  unfold process_stream.
  destruct h, opened; try (rewrite Hloop); try apply Hfin;
    destruct Hopen; done.
Qed.

(** X16.  A routine never removes or reorders entries and never changes the
    path, time or violation of an entry: these fields of the old log are
    a prefix of those of the new one. *)
Theorem routine_keeps_the_recorded_part_of_the_ledger h cfg env
    (opened stop : bool) (frames : list (@Frame Box)) sess :
  segment_record <$> s_violations_log sess `prefix_of`
  segment_record <$>
    s_violations_log (process_stream h cfg env opened stop frames sess).
Proof.
  assert (∀ st,
            violations_log st = s_violations_log sess →
            segment_record <$> s_violations_log sess `prefix_of`
            segment_record <$>
              s_violations_log (finish env cfg (Finished st))) as Hsame.
  { intros st Hst. simpl. by rewrite face_analysis_records, Hst. }
  assert (segment_record <$> s_violations_log sess `prefix_of`
          segment_record <$>
            s_violations_log
              (finish env cfg
                 (frame_loop h cfg env stop
                    (init_state (s_violations_log sess)
                       (s_video_processor sess)) frames))) as Hloop.
  { destruct (frame_loop_outcome h cfg env stop
                (init_state (s_violations_log sess) (s_video_processor sess))
                frames) as [Hzero Hpos].
    destruct (decide (frame_skip cfg = 0)) as [Hs|Hs].
    - destruct (Hzero Hs) as [-> | ->]; [by apply Hsame|done].
    - destruct (Hpos Hs) as [k [-> | [_ ->]]]; simpl;
        destruct (ledger_grows h cfg env
                    (init_state (s_violations_log sess)
                       (s_video_processor sess))
                    (take k frames)) as (new & -> & _); simpl.
      + rewrite face_analysis_records, fmap_app. by apply prefix_app_r.
      + rewrite fmap_app. by apply prefix_app_r. }
  unfold process_stream. destruct h, opened; try done; by apply Hsame.
Qed.
End RoutinesMore.

(** ** The video processor *)

(** X20.  Stopping twice is stopping once; after a stop there is no writer
    and the released paths have only grown; a stop after a start
    releases the started path and nothing else, so a writer that was
    open at the start is dropped without being released. *)
Theorem stop_recording_releases_once (p : string) (vp : VideoProcessor.t) :
  VideoProcessor.stop_recording (VideoProcessor.stop_recording vp) =
    VideoProcessor.stop_recording vp ∧
  VideoProcessor.writer (VideoProcessor.stop_recording vp) = None ∧
  VideoProcessor.released vp `prefix_of`
    VideoProcessor.released (VideoProcessor.stop_recording vp) ∧
  VideoProcessor.stop_recording (VideoProcessor.start_recording p vp) =
    {| VideoProcessor.writer := None; VideoProcessor.recording := false;
       VideoProcessor.released := VideoProcessor.released vp ++ [p] |}.
Proof.
  unfold VideoProcessor.stop_recording, VideoProcessor.start_recording.
  destruct vp as [[w|] r rel]; simpl; split_and!; try done.
  by apply prefix_app_r.
Qed.

(** ** Rendering and reading back the classes of an entry *)

(** X21.  The camera and file routines write the same violation string for a
    set whatever the order in which the set iterates. *)
Theorem sorted_rendering_is_the_same_for_every_iteration_order
    (h : Handler) (iter1 iter2 : gset string → list string) (s : gset string) :
  iteration_order iter1 → iteration_order iter2 → h ≠ Url →
  render_violation h iter1 s = render_violation h iter2 s.
Proof.
  intros H1 H2 Hh.
  by rewrite !(sorted_rendering_ignores_iteration h _ s) by done.
Qed.

Lemma append_cons (c : ascii) (a b : string) :
  String c a +:+ b = String c (a +:+ b).
Proof. done. Qed.

Lemma comma_free_cons (c : ascii) (s : string) :
  comma_free (String c s) ↔ c ≠ ","%char ∧ comma_free s.
Proof. unfold comma_free. simpl. rewrite not_elem_of_cons. naive_solver. Qed.

Lemma split_comma_free (s : string) :
  comma_free s → split_comma_space s = [s].
Proof.
  induction s as [|c s IH]; [done|].
  intros [Hc Hs]%comma_free_cons. simpl.
  rewrite (proj2 (Ascii.eqb_neq _ _)) by done. by rewrite IH.
Qed.

Lemma split_piece (x y : string) :
  comma_free x →
  split_comma_space (x +:+ ", " +:+ y) = x :: split_comma_space y.
Proof.
  induction x as [|c x IH]; [done|].
  intros [Hc Hx]%comma_free_cons.
  rewrite append_cons. simpl.
  rewrite (proj2 (Ascii.eqb_neq _ _)) by done. by rewrite IH.
Qed.

Lemma join_cons (x y : string) (l : list string) :
  join (x :: y :: l) = x +:+ ", " +:+ join (y :: l).
Proof. done. Qed.

Lemma split_join (xs : list string) :
  xs ≠ [] → Forall comma_free xs →
  split_comma_space (join xs) = xs.
Proof.
  intros Hne Hall. induction Hall as [|x xs Hx Hxs IH]; [done|].
  destruct xs as [|y xs].
  - by apply split_comma_free.
  - rewrite join_cons, split_piece by done. f_equal. by apply IH.
Qed.

(** X22.  Splitting on comma-space gives back the names that were joined,
    for a non-empty list of names without a comma. *)
Theorem split_reads_back_joined_names (xs : list string) :
  xs ≠ [] → Forall comma_free xs →
  split_comma_space (join xs) = xs.
Proof.
  intros Hne Hall. destruct xs as [|x xs]; [done|]. clear Hne.
  revert x Hall. induction xs as [|y xs IH]; intros x Hall.
  - apply split_comma_free. by apply Forall_cons in Hall as [? _].
  - apply Forall_cons in Hall as [Hx Hall].
    rewrite join_cons, split_piece by done. f_equal. by apply IH.
Qed.

Lemma sorted_is_permutation (l : list string) : sorted l ≡ₚ l.
Proof. apply merge_sort_Permutation. Qed.

Lemma rendered_names (h : Handler) (iter : gset string → list string)
    (s : gset string) :
  iteration_order iter →
  ∃ names, render_violation h iter s = join names ∧ names ≡ₚ elements s ∧
           (h ≠ Url → names = sorted (elements s)).
Proof.
  intros Hiter. destruct h; simpl.
  1,2: exists (sorted (iter s)); split_and!;
    [done|by rewrite sorted_is_permutation|intros _; by apply sorted_permutation].
  exists (iter s). split_and!; done.
Qed.

(** C5.  When a segment opens at the first frame of a run and closes at
    its last, the accumulated set is the union of the confirmed sets of
    all frames of the run, in whatever order the sets are taken, and
    the entry written for it names exactly the classes of that union,
    each once, joined by comma and space (in ascending order for the
    camera and file routines); splitting the entry gives the union back
    when no class name holds a comma. *)
Theorem closed_segment_records_union {Box : Type} (h : Handler)
    (cfg : Config) (env : Env) (st : @LoopState Box)
    (pre : list (@Frame Box)) (f : @Frame Box) :
  iteration_orders env →
  recording st = false →
  stays_recording h cfg env st pre →
  (pre = [] → frame_confirmed cfg st f ≠ ∅) →
  recording (run_frames h cfg env st (pre ++ [f])) = false →
  ∃ e, violations_log (run_frames h cfg env st (pre ++ [f])) =
         violations_log st ++ [e] ∧
       ∀ sets, sets ≡ₚ confirmed_trace h cfg env st (pre ++ [f]) →
         rec_violations (run_frames h cfg env st (pre ++ [f])) = ⋃ sets ∧
         ∃ names,
           violation e = join names ∧
           names ≡ₚ elements (⋃ sets) ∧
           (h ≠ Url → names = sorted (elements (⋃ sets))) ∧
           (set_Forall comma_free (⋃ sets) →
            list_to_set (split_comma_space (violation e)) = ⋃ sets).
Proof.
  intros Hiter Hidle Hstay Hfirst Hclosed.
  destruct (closed_segment_union h cfg env st pre f Hidle Hstay Hfirst Hclosed)
    as (e & Hlog & Hsets).
  exists e. split; [done|]. intros sets Hp.
  destruct (Hsets sets Hp) as (Hne & Hrec & Hv).
  split; [done|].
  destruct (rendered_names h _ (⋃ sets) (Hiter (length (violations_log st))))
    as (names & Hjoin & Hperm & Hsorted).
  exists names. rewrite Hv, Hjoin. split_and!; [done|done|done|].
  intros Hfree. rewrite split_join.
  - apply set_eq. intros x.
    by rewrite elem_of_list_to_set, Hperm, elem_of_elements.
  - intros ->. apply Permutation_nil_l in Hperm. symmetry in Hperm.
    by apply elements_empty_inv, leibniz_equiv in Hperm.
  - rewrite Hperm. apply Forall_forall. intros x Hx.
    apply Hfree. by apply elem_of_elements.
Qed.

Lemma closed_segment_records_union_witness :
  ∃ e,
    violations_log
      (run_frames File (Sample.cfg 10) Sample.env Sample.start
         ([Sample.frame 5 40 ["phone"]; Sample.frame 8 43 ["bottle"]] ++
          [Sample.frame 19 54 []]))
      = violations_log Sample.start ++ [e] ∧
    ∀ sets,
      sets ≡ₚ confirmed_trace File (Sample.cfg 10) Sample.env Sample.start
                ([Sample.frame 5 40 ["phone"]; Sample.frame 8 43 ["bottle"]] ++
                 [Sample.frame 19 54 []]) →
      rec_violations
        (run_frames File (Sample.cfg 10) Sample.env Sample.start
           ([Sample.frame 5 40 ["phone"]; Sample.frame 8 43 ["bottle"]] ++
            [Sample.frame 19 54 []])) = ⋃ sets ∧
      ∃ names,
        violation e = join names ∧
        names ≡ₚ elements (⋃ sets) ∧
        (File ≠ Url → names = sorted (elements (⋃ sets))) ∧
        (set_Forall comma_free (⋃ sets) →
         list_to_set (split_comma_space (violation e)) = ⋃ sets).
Proof.
  apply (closed_segment_records_union File (Sample.cfg 10) Sample.env
           Sample.start
           [Sample.frame 5 40 ["phone"]; Sample.frame 8 43 ["bottle"]]
           (Sample.frame 19 54 [])).
  - intros k s. reflexivity.
  - reflexivity.
  - vm_compute. repeat split.
  - discriminate.
  - vm_compute. reflexivity.
Defined.

(** X23.  From the violation string of an entry the chart's split recovers
    the classes of the segment, each once; for the camera and file
    routines in ascending order. *)
Theorem chart_reads_back_the_classes_of_an_entry (h : Handler)
    (iter : gset string → list string) (s : gset string) :
  iteration_order iter →
  s ≠ ∅ →
  set_Forall comma_free s →
  split_comma_space (render_violation h iter s) ≡ₚ elements s ∧
  list_to_set (split_comma_space (render_violation h iter s)) = s ∧
  (h ≠ Url →
   split_comma_space (render_violation h iter s) = sorted (elements s) ∧
   Sorted String.le (split_comma_space (render_violation h iter s))).
Proof.
  intros Hiter Hne Hfree.
  destruct (rendered_names h iter s Hiter) as (names & -> & Hperm & Hsorted).
  assert (split_comma_space (join names) = names) as ->.
  { apply split_join.
    - intros ->. apply Permutation_nil_l in Hperm. symmetry in Hperm.
      by apply elements_empty_inv, leibniz_equiv in Hperm.
    - rewrite Hperm. apply Forall_forall. intros x Hx.
      apply Hfree. by apply elem_of_elements. }
  split_and!; [done| |].
  - apply set_eq. intros x.
    by rewrite elem_of_list_to_set, Hperm, elem_of_elements.
  - intros Hh. rewrite (Hsorted Hh). split; [done|].
    apply Sorted_merge_sort. apply _.
Qed.

(** ** The chart of violation types *)

Lemma count_type_lookup (m : gmap string nat) (x c : string) :
  default 0%nat (count_type m x !! c) =
  (default 0 (m !! c) + (if decide (x = c) then 1 else 0))%nat.
Proof.
  unfold count_type. destruct (decide (x = c)) as [->|Hne].
  - by rewrite lookup_insert_eq.
  - rewrite lookup_insert_ne by done. lia.
Qed.

Lemma count_types_lookup (l : list string) (m : gmap string nat) (c : string) :
  NoDup l →
  default 0%nat (foldl count_type m l !! c) =
  (default 0 (m !! c) + (if decide (c ∈ l) then 1 else 0))%nat.
Proof.
  intros Hnd. revert m. induction Hnd as [|x l Hx Hnd IH]; intros m.
  - case_decide as Hin; [by apply elem_of_nil in Hin|]. simpl. lia.
  - cbn [foldl]. rewrite IH, count_type_lookup.
    destruct (decide (x = c)) as [->|Hne].
    + rewrite decide_False by done.
      rewrite decide_True by (by left). lia.
    + destruct (decide (c ∈ l)) as [Hin|Hout].
      * rewrite decide_True by (by right). lia.
      * rewrite decide_False; [lia|].
        rewrite elem_of_cons. naive_solver.
Qed.

Lemma count_types_dom (l : list string) (m : gmap string nat) :
  dom (foldl count_type m l) = dom m ∪ list_to_set l.
Proof.
  revert m. induction l as [|x l IH]; intros m; simpl; [set_solver|].
  rewrite IH. unfold count_type. rewrite dom_insert_L. set_solver.
Qed.

Lemma entry_pieces (e : LedgerEntry) (s : gset string) :
  entry_of_set e s →
  split_comma_space (violation e) ≡ₚ elements s.
Proof.
  intros (Hne & Hfree & h & iter & Hiter & ->).
  destruct (rendered_names h iter s Hiter) as (names & -> & Hperm & _).
  rewrite split_join; [done| |].
  - intros ->. apply Permutation_nil_l in Hperm. symmetry in Hperm.
    by apply elements_empty_inv, leibniz_equiv in Hperm.
  - rewrite Hperm. apply Forall_forall. intros x Hx.
    apply Hfree. by apply elem_of_elements.
Qed.

Lemma chart_fold (log : list LedgerEntry) (sets : list (gset string))
    (m : gmap string nat) (c : string) :
  Forall2 entry_of_set log sets →
  default 0%nat
    (foldl (λ counts v,
              foldl count_type counts (split_comma_space (violation v)))
           m log !! c) =
    (default 0 (m !! c) + length (filter (λ s, c ∈ s) sets))%nat ∧
  dom (foldl (λ counts v,
                foldl count_type counts (split_comma_space (violation v)))
             m log) = dom m ∪ ⋃ sets.
Proof.
  intros Hall. revert m.
  induction Hall as [|e s log sets He Hall IH]; intros m; simpl.
  - split; [lia|set_solver].
  - pose proof (entry_pieces e s He) as Hperm.
    destruct (IH (foldl count_type m (split_comma_space (violation e))))
      as [-> ->].
    rewrite count_types_lookup, count_types_dom
      by (rewrite Hperm; apply NoDup_elements).
    split.
    + rewrite filter_cons. destruct (decide (c ∈ s)) as [Hin|Hout].
      * rewrite decide_True by (by rewrite Hperm, elem_of_elements).
        simpl. lia.
      * rewrite decide_False by (by rewrite Hperm, elem_of_elements). lia.
    + assert (list_to_set (split_comma_space (violation e)) = s) as ->; [|set_solver].
      apply set_eq. intros x.
      by rewrite elem_of_list_to_set, Hperm, elem_of_elements.
Qed.

(** X24.  For a log whose entries were written for given sets of classes,
    each by some routine and in some iteration order of its own, the
    chart counts for each class the entries whose set contains it, and
    its keys are the classes that occur. *)
Theorem chart_counts_the_entries_of_each_class
    (log : list LedgerEntry) (sets : list (gset string)) (c : string) :
  Forall2 entry_of_set log sets →
  default 0%nat (violation_type_counts log !! c) =
    length (filter (λ s, c ∈ s) sets) ∧
  dom (violation_type_counts log) = ⋃ sets.
Proof.
  intros Hall. unfold violation_type_counts.
  destruct (chart_fold log sets ∅ c Hall) as [-> ->].
  rewrite lookup_empty, dom_empty_L. simpl. split; [done|set_solver].
Qed.

(** ** The report *)

Section ReportFacts.
Implicit Types (env : Env) (sim : Q) (items : list LedgerEntry).

Lemma report_fold env sim items (r : Report) (n : nat) :
  foldl (report_step env sim) r (imap (λ i x, ((n + i)%nat, x)) items) =
  {| r_content := r_content r +:+ report_body env sim n items;
     r_calls := if database_available env
                then r_calls r ++ (path <$> items) else r_calls r |}.
Proof.
  revert r n. induction items as [|item items IH]; intros r n; simpl.
  - destruct r as [c k]. simpl. f_equal.
    + clear. induction c as [|x c IH]; [done|].
      rewrite append_cons. by rewrite <- IH at 1.
    + destruct (database_available env); [by rewrite app_nil_r|done].
  - rewrite (imap_ext _ (λ i x, ((S n + i)%nat, x)))
      by (intros; simpl; f_equal; lia).
    rewrite IH. unfold report_step at 1 2. simpl.
    rewrite Nat.add_0_r. f_equal.
    + apply append_assoc.
    + destruct (database_available env); [|done].
      by rewrite <- app_assoc.
Qed.

Lemma generate_report_cons (now : datetime) env sim item items :
  generate_report now env sim (item :: items) =
  Some (path_join "monitor_output"
          ("report_" +:+ strftime_date now +:+ ".txt"),
        {| r_content :=
             report_header (strftime_date now) +:+
             report_body env sim 0 (item :: items);
           r_calls := if database_available env
                      then path <$> (item :: items) else [] |}).
Proof.
  unfold generate_report. do 2 f_equal.
  apply (report_fold env sim (item :: items)
           {| r_content := report_header (strftime_date now); r_calls := [] |}
           0).
Qed.

(** X25.  The report is absent exactly for an empty list; otherwise it is
    written to [monitor_output/report_<date>.txt], holds the header and
    one block per entry in order, and the matcher has been asked for
    every entry, pending or not, when a database is available and for
    none otherwise. *)
Theorem report_asks_the_matcher_for_every_entry (now : datetime) env sim items :
  (generate_report now env sim items = None ↔ items = []) ∧
  ∀ file r,
    generate_report now env sim items = Some (file, r) →
    file = "monitor_output/report_" +:+ strftime_date now +:+ ".txt" ∧
    r_calls r = (if database_available env then path <$> items else []) ∧
    r_content r =
      report_header (strftime_date now) +:+ report_body env sim 0 items.
Proof.
  split.
  - destruct items; simpl; split; done.
  - intros file r Hgen.
    destruct items as [|item items]; [done|].
    rewrite generate_report_cons in Hgen. injection Hgen as <- <-. done.
Qed.

(** X26.  The student and face labels of a report depend on the paths of the
    entries only: what the log records as student and confidence is
    ignored. *)
Theorem report_ignores_the_recorded_attribution env sim
    (items1 items2 : list LedgerEntry) :
  path <$> items1 = path <$> items2 →
  report_rows env sim items1 = report_rows env sim items2.
Proof.
  intros Hpaths. unfold report_rows.
  apply list_eq. intros i. rewrite !list_lookup_imap.
  pose proof (f_equal (λ l, l !! i) Hpaths) as Hi. simpl in Hi.
  rewrite !list_lookup_fmap in Hi.
  destruct (items1 !! i) as [a|], (items2 !! i) as [b|]; simpl in *;
    try done.
  injection Hi as Hab. unfold report_labels. by rewrite Hab.
Qed.

(** X27.  A row of the report names a student only when the matcher
    returned a score of at least one half; below that it reads not
    recognised but still shows the face path; a matcher failure shows
    the analysis error and no face; without a database every row reads
    not recognised. *)
Theorem report_names_only_confident_matches env sim items (i : nat)
    (info face : string) :
  report_rows env sim items !! i = Some (info, face) →
  ∃ item, items !! i = Some item ∧
    ((database_available env = false ∧
      info = NOT_RECOGNISED ∧ face = NO_FACE) ∨
     (database_available env = true ∧
      analyze_video_segment env i (path item) sim = MatchRaised ∧
      info = ANALYSIS_ERROR ∧ face = NO_FACE) ∨
     (∃ name score,
        database_available env = true ∧
        analyze_video_segment env i (path item) sim = Matched name score face ∧
        (((1 # 2) <= score)%Q ∧
         info = name +:+ " (" +:+ format_percent env score +:+ ")" ∨
         (score < (1 # 2))%Q ∧ info = NOT_RECOGNISED))).
Proof.
  unfold report_rows. rewrite list_lookup_imap.
  destruct (items !! i) as [item|]; [|done]. simpl.
  intros [= Hrow]. exists item. split; [done|].
  unfold report_labels in Hrow.
  destruct (database_available env); [|injection Hrow as <- <-; by left].
  right. destruct (analyze_video_segment env i (path item) sim)
    as [name score fp|]; [|injection Hrow as <- <-; by left].
  right. injection Hrow as <- <-. exists name, score. split_and!; try done.
  destruct (Qle_bool 0.5 score) eqn:Hq.
  - left. split; [|done]. apply Qle_bool_iff in Hq. lra.
  - right. split; [|done].
    apply not_true_iff_false in Hq. rewrite Qle_bool_iff in Hq. lra.
Qed.
End ReportFacts.

Lemma unsampled_frame_leaves_filter_alone_witness :
  let st := Sample.start in
  let f := Sample.frame 5 40 ["phone"] in
  sleep_start_time (process_frame File Demo.cfg_skip3 Sample.env st f)
    = sleep_start_time st ∧
  last_detection_time (process_frame File Demo.cfg_skip3 Sample.env st f)
    = last_detection_time st ∧
  rec_violations (process_frame File Demo.cfg_skip3 Sample.env st f)
    = rec_violations st ∧
  current_segment_path (process_frame File Demo.cfg_skip3 Sample.env st f)
    = current_segment_path st ∧
  (recording (process_frame File Demo.cfg_skip3 Sample.env st f) = true →
   recording st = true).
Proof.
  apply (unsampled_frame_leaves_filter_alone File Demo.cfg_skip3 Sample.env
           Sample.start (Sample.frame 5 40 ["phone"])).
  reflexivity.
Defined.

Lemma no_segment_without_confirmation_witness :
  let frames := [Sample.frame 1 40 []; Sample.frame 2 41 ["sleeping"]] in
  recording (run_frames File (Sample.cfg 10) Sample.env Sample.start frames)
    = false ∧
  violations_log (run_frames File (Sample.cfg 10) Sample.env Sample.start frames)
    = violations_log Sample.start ∧
  video_processor (run_frames File (Sample.cfg 10) Sample.env Sample.start frames)
    = video_processor Sample.start.
Proof.
  apply (no_segment_without_confirmation File (Sample.cfg 10) Sample.env
           Sample.start
           [Sample.frame 1 40 []; Sample.frame 2 41 ["sleeping"]]).
  - reflexivity.
  - vm_compute. repeat split.
Defined.

Lemma writer_follows_recording_flag_witness :
  writer_consistent
    (run_frames Url (Sample.cfg 10) Sample.env
       (init_state [] VideoProcessor.init)
       [Sample.frame 5 40 ["phone"]; Sample.frame 16 51 []]).
Proof.
  apply (writer_follows_recording_flag Url (Sample.cfg 10) Sample.env []
           VideoProcessor.init
           [Sample.frame 5 40 ["phone"]; Sample.frame 16 51 []]).
  split; reflexivity.
Defined.

Lemma every_entry_has_its_released_writer_witness :
  ∃ new,
    violations_log
      (run_frames File (Sample.cfg 10) Sample.env
         (init_state [] VideoProcessor.init)
         [Sample.frame 5 40 ["phone"]; Sample.frame 16 51 []])
      = [] ++ new ∧
    Some <$> VideoProcessor.released
      (video_processor
         (run_frames File (Sample.cfg 10) Sample.env
            (init_state [] VideoProcessor.init)
            [Sample.frame 5 40 ["phone"]; Sample.frame 16 51 []]))
      = (Some <$> VideoProcessor.released VideoProcessor.init) ++
        (path <$> new).
Proof.
  apply (every_entry_has_its_released_writer File (Sample.cfg 10) Sample.env
           [] VideoProcessor.init
           [Sample.frame 5 40 ["phone"]; Sample.frame 16 51 []]).
  split; reflexivity.
Defined.

Lemma confirmation_rearms_segment_witness :
  let st := Sample.start in
  let f := Sample.frame 5 40 ["phone"] in
  recording (process_frame File (Sample.cfg 10) Sample.env st f) = true ∧
  last_detection_time (process_frame File (Sample.cfg 10) Sample.env st f)
    = Some (f_time f) ∧
  violations_log (process_frame File (Sample.cfg 10) Sample.env st f)
    = violations_log st ∧
  frame_confirmed (Sample.cfg 10) st f ⊆
    rec_violations (process_frame File (Sample.cfg 10) Sample.env st f).
Proof.
  apply (confirmation_rearms_segment File (Sample.cfg 10) Sample.env
           Sample.start (Sample.frame 5 40 ["phone"])).
  - apply set_truthy_true. vm_compute. reflexivity.
  - simpl. lra.
  - simpl. lra.
Defined.

Lemma segment_without_detection_time_stays_open_witness :
  let st :=
    process_frame File (Sample.cfg 10) Sample.env Sample.start
      (Sample.frame 0 40 ["phone"]) in
  let frames := [Sample.frame 100 41 []; Sample.frame 1000 42 []] in
  recording (run_frames File (Sample.cfg 10) Sample.env st frames) = true ∧
  violations_log (run_frames File (Sample.cfg 10) Sample.env st frames)
    = violations_log st.
Proof.
  apply (segment_without_detection_time_stays_open File (Sample.cfg 10)
           Sample.env
           (process_frame File (Sample.cfg 10) Sample.env Sample.start
              (Sample.frame 0 40 ["phone"]))
           [Sample.frame 100 41 []; Sample.frame 1000 42 []]).
  - vm_compute. reflexivity.
  - vm_compute. reflexivity.
  - vm_compute. repeat split.
Defined.

Lemma sleeping_inside_debounce_records_nothing_witness :
  let f0 := Sample.frame 0 40 ["sleeping"] in
  let rest := [Sample.frame 5 45 ["sleeping"]; Sample.frame 9 49 ["sleeping"]] in
  recording (run_frames File (Sample.cfg 10) Sample.env Sample.start
               (f0 :: rest)) = false ∧
  violations_log (run_frames File (Sample.cfg 10) Sample.env Sample.start
               (f0 :: rest)) = violations_log Sample.start ∧
  video_processor (run_frames File (Sample.cfg 10) Sample.env Sample.start
               (f0 :: rest)) = video_processor Sample.start ∧
  sleep_start_time (run_frames File (Sample.cfg 10) Sample.env Sample.start
               (f0 :: rest)) = Some (f_time f0).
Proof.
  apply (sleeping_inside_debounce_records_nothing File (Sample.cfg 10)
           Sample.env Sample.start (Sample.frame 0 40 ["sleeping"])
           [Sample.frame 5 45 ["sleeping"]; Sample.frame 9 49 ["sleeping"]]).
  - reflexivity.
  - reflexivity.
  - reflexivity.
  - repeat constructor; simpl; try lra; vm_compute; reflexivity.
Defined.

Lemma frame_cap_bounds_the_run_witness :
  frame_loop File (Sample.cfg 10) Sample.env false
    (init_state [] VideoProcessor.init)
    [Sample.frame 5 40 ["phone"]; Sample.frame 16 51 []] =
  Finished
    (run_frames File (Sample.cfg 10) Sample.env
       (init_state [] VideoProcessor.init)
       (frames_processed File
          [Sample.frame 5 40 ["phone"]; Sample.frame 16 51 []])).
Proof.
  apply (frame_cap_bounds_the_run File (Sample.cfg 10) Sample.env []
           VideoProcessor.init
           [Sample.frame 5 40 ["phone"]; Sample.frame 16 51 []]).
  - discriminate.
  - intros _. reflexivity.
Defined.

Lemma zero_frame_skip_aborts_the_run_witness :
  process_stream File Demo.cfg_skip0 Sample.env true false
    (Sample.frame 5 40 ["phone"] :: []) Sample.session =
  {| s_violations_log := s_violations_log Sample.session;
     s_video_processor := s_video_processor Sample.session;
     s_processing := false |}.
Proof.
  apply (zero_frame_skip_aborts_the_run File Demo.cfg_skip0 Sample.env
           Sample.session (Sample.frame 5 40 ["phone"]) []).
  reflexivity.
Defined.

Lemma routine_leaves_no_writer_open_witness :
  writer_closed
    (s_video_processor
       (process_stream File (Sample.cfg 10) Sample.env true false
          [Sample.frame 5 40 ["phone"]] Sample.session)).
Proof.
  apply (routine_leaves_no_writer_open File (Sample.cfg 10) Sample.env
           true false [Sample.frame 5 40 ["phone"]] Sample.session).
  - split; reflexivity.
  - intros _. reflexivity.
Defined.

(** The proviso cannot be dropped.  When the capture of a file reports no
    frames, the progress computed at the end of the first iteration
    raises: a segment opened in that iteration keeps its writer open,
    and an entry pending in the log stays pending although there is no
    database. *)
Lemma file_without_frame_count_leaves_the_writer_open :
  let after :=
    process_video_file (Sample.cfg 10) Demo.env_no_frame_count true
      [Sample.frame 5 40 ["phone"]; Sample.frame 16 51 []]
      {| s_violations_log := [Sample.pending_entry "old.mp4"];
         s_video_processor := VideoProcessor.init;
         s_processing := true |} in
  VideoProcessor.writer (s_video_processor after) = Some Sample.the_path ∧
  VideoProcessor.released (s_video_processor after) = [] ∧
  s_violations_log after = [Sample.pending_entry "old.mp4"] ∧
  s_processing after = false.
Proof. vm_compute. repeat split. Qed.

Lemma routine_without_database_settles_the_ledger_witness :
  Forall (λ e, is_pending e = false)
    (s_violations_log
       (process_stream File (Sample.cfg 10) Sample.env true false
          [Sample.frame 5 40 ["phone"]; Sample.frame 16 51 []]
          Sample.session)).
Proof.
  apply (routine_without_database_settles_the_ledger File (Sample.cfg 10)
           Sample.env true false
           [Sample.frame 5 40 ["phone"]; Sample.frame 16 51 []]
           Sample.session).
  - discriminate.
  - reflexivity.
  - by left.
  - intros _. reflexivity.
Defined.

Lemma face_analysis_keeps_segment_records_witness :
  ∃ e',
    (face_analysis Sample.env_matching (Sample.cfg 10)
       [Sample.pending_entry "a.mp4"; Demo.resolved_entry "b.mp4"]).1 !! 1%nat
      = Some e' ∧
    path e' = path (Demo.resolved_entry "b.mp4") ∧
    time e' = time (Demo.resolved_entry "b.mp4") ∧
    violation e' = violation (Demo.resolved_entry "b.mp4") ∧
    (is_pending (Demo.resolved_entry "b.mp4") = false →
     e' = Demo.resolved_entry "b.mp4").
Proof.
  apply (face_analysis_keeps_segment_records Sample.env_matching
           (Sample.cfg 10)
           [Sample.pending_entry "a.mp4"; Demo.resolved_entry "b.mp4"]
           1 (Demo.resolved_entry "b.mp4")).
  reflexivity.
Defined.

Lemma settled_ledger_is_left_alone_witness :
  face_analysis Sample.env_matching (Sample.cfg 10)
    [Demo.resolved_entry "a.mp4"; Demo.resolved_entry "b.mp4"] =
  ([Demo.resolved_entry "a.mp4"; Demo.resolved_entry "b.mp4"], []).
Proof.
  apply (settled_ledger_is_left_alone Sample.env_matching (Sample.cfg 10)
           [Demo.resolved_entry "a.mp4"; Demo.resolved_entry "b.mp4"]).
  repeat constructor.
Defined.

Lemma matcher_called_once_per_pending_entry_witness :
  let log :=
    [Sample.pending_entry "a.mp4"; Demo.resolved_entry "b.mp4";
     Sample.pending_entry "c.mp4"] in
  (face_analysis Sample.env_matching (Sample.cfg 10) log).2 =
    path <$> filter (λ e, is_pending e = true) log ∧
  length (face_analysis Sample.env_matching (Sample.cfg 10) log).2 =
    length (violations_to_process log) ∧
  (∀ k, k ∈ violations_to_process log ↔
        ∃ e, log !! k = Some e ∧ is_pending e = true).
Proof.
  apply (matcher_called_once_per_pending_entry Sample.env_matching
           (Sample.cfg 10)
           [Sample.pending_entry "a.mp4"; Demo.resolved_entry "b.mp4";
            Sample.pending_entry "c.mp4"]).
  reflexivity.
Defined.

Lemma sorted_rendering_is_the_same_for_every_iteration_order_witness :
  render_violation File (set_iter Sample.env) {["phone"; "bottle"]} =
  render_violation File (set_iter Sample.env_reversed) {["phone"; "bottle"]}.
Proof.
  apply (sorted_rendering_is_the_same_for_every_iteration_order File
           (set_iter Sample.env) (set_iter Sample.env_reversed)
           {["phone"; "bottle"]}).
  - by intros s.
  - apply reverse_elements_is_iteration_order.
  - discriminate.
Defined.

Lemma comma_free_decide (s : string) :
  bool_decide (","%char ∉ chars s) = true → comma_free s.
Proof. apply bool_decide_eq_true_1. Qed.

Lemma split_reads_back_joined_names_witness :
  split_comma_space (join ["bottle"; "phone"; "sleeping"]) =
  ["bottle"; "phone"; "sleeping"].
Proof.
  apply (split_reads_back_joined_names ["bottle"; "phone"; "sleeping"]).
  - discriminate.
  - repeat constructor; apply comma_free_decide; vm_compute; reflexivity.
Defined.

Lemma sample_set_comma_free :
  set_Forall comma_free ({["phone"; "bottle"]} : gset string).
Proof.
  intros x Hx. apply elem_of_union in Hx as [Hx|Hx];
    apply elem_of_singleton in Hx; subst;
    apply comma_free_decide; vm_compute; reflexivity.
Qed.

Lemma sample_set_nonempty : ({["phone"; "bottle"]} : gset string) ≠ ∅.
Proof. apply set_truthy_true. vm_compute. reflexivity. Qed.

Lemma chart_reads_back_the_classes_of_an_entry_witness :
  let s : gset string := {["phone"; "bottle"]} in
  split_comma_space (render_violation Url (set_iter Sample.env_reversed) s)
    ≡ₚ elements s ∧
  list_to_set
    (split_comma_space (render_violation Url (set_iter Sample.env_reversed) s))
    = s ∧
  (Url ≠ Url →
   split_comma_space (render_violation Url (set_iter Sample.env_reversed) s)
     = sorted (elements s) ∧
   Sorted String.le
     (split_comma_space
        (render_violation Url (set_iter Sample.env_reversed) s))).
Proof.
  apply (chart_reads_back_the_classes_of_an_entry Url
           (set_iter Sample.env_reversed) {["phone"; "bottle"]}).
  - apply reverse_elements_is_iteration_order.
  - apply sample_set_nonempty.
  - apply sample_set_comma_free.
Defined.

Lemma chart_counts_the_entries_of_each_class_witness :
  let e1 :=
    {| path := Some "a.mp4"; time := "14:01:51";
       violation := "phone, bottle"; student := PENDING;
       confidence := "N/A" |} in
  let e2 :=
    {| path := Some "b.mp4"; time := "14:02:30";
       violation := "bottle, phone"; student := PENDING;
       confidence := "N/A" |} in
  default 0%nat (violation_type_counts [e1; e2] !! "phone") =
    length (filter (λ s : gset string, "phone" ∈ s)
              [{["phone"; "bottle"]}; {["phone"; "bottle"]}]) ∧
  dom (violation_type_counts [e1; e2]) =
    ⋃ [({["phone"; "bottle"]} : gset string); {["phone"; "bottle"]}].
Proof.
  apply (chart_counts_the_entries_of_each_class
           [_; _] [{["phone"; "bottle"]}; {["phone"; "bottle"]}] "phone").
  repeat constructor;
    try apply sample_set_nonempty; try apply sample_set_comma_free.
  - exists Url, (set_iter Sample.env_reversed).
    split; [apply reverse_elements_is_iteration_order|].
    vm_compute. reflexivity.
  - exists Url, (set_iter Sample.env).
    split; [by intros s|]. vm_compute. reflexivity.
Defined.

(** One run of the network routine can write one set of classes in two
    orders; the chart counts both entries under both classes. *)
Lemma url_run_writes_one_set_in_two_orders :
  let log :=
    violations_log
      (run_frames Url (Sample.cfg 10) Demo.env_alternating Sample.start
         [Sample.frame 5 40 ["phone"; "bottle"]; Sample.frame 16 51 [];
          Sample.frame 30 52 ["bottle"; "phone"]; Sample.frame 41 53 []]) in
  iteration_orders Demo.env_alternating ∧
  violation <$> log = ["bottle, phone"; "phone, bottle"] ∧
  violation_type_counts log !! "phone" = Some 2%nat ∧
  violation_type_counts log !! "bottle" = Some 2%nat.
Proof.
  split.
  - intros k s. simpl. destruct (Nat.even k); [done|apply reverse_Permutation].
  - vm_compute. repeat split.
Qed.

Lemma report_asks_the_matcher_for_every_entry_witness :
  ∃ file r,
    generate_report (Sample.at_second 40) Demo.env_scores 0.5
      [Sample.pending_entry "a.mp4"; Demo.resolved_entry "b.mp4"]
      = Some (file, r) ∧
    file = "monitor_output/report_" +:+ strftime_date (Sample.at_second 40)
           +:+ ".txt" ∧
    r_calls r =
      (if database_available Demo.env_scores
       then path <$> [Sample.pending_entry "a.mp4"; Demo.resolved_entry "b.mp4"]
       else []) ∧
    r_content r =
      report_header (strftime_date (Sample.at_second 40)) +:+
      report_body Demo.env_scores 0.5 0
        [Sample.pending_entry "a.mp4"; Demo.resolved_entry "b.mp4"].
Proof.
  eexists _, _. split; [apply generate_report_cons|].
  apply (proj2 (report_asks_the_matcher_for_every_entry (Sample.at_second 40)
                  Demo.env_scores 0.5
                  [Sample.pending_entry "a.mp4"; Demo.resolved_entry "b.mp4"])).
  apply generate_report_cons.
Defined.

Lemma report_ignores_the_recorded_attribution_witness :
  report_rows Demo.env_scores 0.5 [Sample.pending_entry "a.mp4"] =
  report_rows Demo.env_scores 0.5 [Demo.resolved_entry "a.mp4"].
Proof.
  apply (report_ignores_the_recorded_attribution Demo.env_scores 0.5
           [Sample.pending_entry "a.mp4"] [Demo.resolved_entry "a.mp4"]).
  reflexivity.
Defined.

Lemma report_names_only_confident_matches_witness :
  let items :=
    [Sample.pending_entry "a.mp4"; Sample.pending_entry "b.mp4";
     Sample.pending_entry "c.mp4"] in
  ∃ item, items !! 1%nat = Some item ∧
    ((database_available Demo.env_scores = false ∧
      NOT_RECOGNISED = NOT_RECOGNISED ∧ "b.jpg" = NO_FACE) ∨
     (database_available Demo.env_scores = true ∧
      analyze_video_segment Demo.env_scores 1 (path item) 0.5 = MatchRaised ∧
      NOT_RECOGNISED = ANALYSIS_ERROR ∧ "b.jpg" = NO_FACE) ∨
     (∃ name score,
        database_available Demo.env_scores = true ∧
        analyze_video_segment Demo.env_scores 1 (path item) 0.5
          = Matched name score "b.jpg" ∧
        (((1 # 2) <= score)%Q ∧
         NOT_RECOGNISED =
           name +:+ " (" +:+ format_percent Demo.env_scores score +:+ ")" ∨
         (score < (1 # 2))%Q ∧ NOT_RECOGNISED = NOT_RECOGNISED))).
Proof.
  apply (report_names_only_confident_matches Demo.env_scores 0.5
           [Sample.pending_entry "a.mp4"; Sample.pending_entry "b.mp4";
            Sample.pending_entry "c.mp4"] 1 NOT_RECOGNISED "b.jpg").
  vm_compute. reflexivity.
Defined.
